(** * Relabeling of label sets: [Process], [relabel] and [sum64]

    A shallow embedding of
    [vendor/github.com/prometheus/prometheus/pkg/relabel/relabel.go].

    The three functions of the file are embedded as they are written.  What
    they import is treated as follows.

    - Go's [regexp.Regexp] is an interface record (the four methods that
      [relabel] calls) with the two facts of the package documentation the
      proofs use.
    - [labels.Labels] and [labels.Builder] are finite maps from names to
      values, read in the order of the names.
    - [config.RelabelConfig] is a record with the fields [relabel] reads.
    - [md5.Sum] and [model.LabelName.IsValid] are variables of the section
      that holds [relabel]; the digest of RFC 1321 and the syntax of label
      names instantiate them in the examples.
    - A Go panic is an outcome of its own, next to the returned value.

    The storage client of [stackdriver/queue_manager_test.go]
    ([NewTestStorageClient], [expectSamples] and [Store]) is embedded in
    module [stackdriver]: its two maps, and the counter of its wait group;
    the constant [metricsPrefix] of the package is a variable. *)

From Stdlib Require Import ZArith NArith List String Ascii Lia Bool.
From Stdlib Require Import DecimalString DecimalPos DecimalN.
From Stdlib.Strings Require Import Byte.
From stdpp Require Import gmap strings list fin_maps sorting vector.
From Corelib Require PrimFloat.
Import ListNotations.

Local Open Scope string_scope.

(** ** Outcomes of a Go function that may panic *)

Inductive panic : Type :=
| NilPooledRegexp            (* panic(fmt.Sprintf("%v", cfg)) *)
| NilDereference             (* a method called on the nil *regexp.Regexp *)
| DivideByZero               (* x % 0 on integers *)
| UnknownAction (a : string) (* the default branch of the switch *).

Inductive exec (A : Type) : Type :=
| Done (a : A)
| Panicked (p : panic).

Arguments Done {A} a.
Arguments Panicked {A} p.

Definition exec_bind {A B : Type} (f : A -> exec B) (m : exec A) : exec B :=
  match m with
  | Done a => f a
  | Panicked p => Panicked p
  end.

#[global] Instance exec_mbind : MBind exec := @exec_bind.
#[global] Instance exec_mret : MRet exec := @Done.

(** [for _, x := range xs { acc = body(acc, x) }], where the body may panic. *)
Fixpoint for_range {A B : Type} (body : B -> A -> exec B) (xs : list A) (acc : B)
  : exec B :=
  match xs with
  | [] => Done acc
  | x :: xs' => acc' ← body acc x; for_range body xs' acc'
  end.

(** ** Unsigned 64-bit integers and the Go primitives used *)

Definition two64 : N := 2 ^ 64.

(** The conversion [uint64(n)] of a signed [int]. *)
Definition uint64 (z : Z) : N := Z.to_N (z mod Z.of_N two64).

(** [x << s] on [uint64]: the bits shifted past bit 63 are lost, and a count
    of 64 or more gives 0. *)
Definition shl64 (x s : N) : N :=
  if (64 <=? s)%N then 0%N else (N.shiftl x s mod two64)%N.

(** [x | y] on [uint64]. *)
Definition or64 (x y : N) : N := N.lor x y.

(** [uint64(b)] of a byte. *)
Definition uint64_of_byte (b : byte) : N := Byte.to_N b.

(** [fmt.Sprintf("%d", n)] of a [uint64]. *)
Definition FormatUint (n : N) : string := NilZero.string_of_uint (N.to_uint n).

(** [strings.Join(values, sep)]. *)
Definition strings_Join (values : list string) (sep : string) : string :=
  String.concat sep values.

(** [len(s)] of a string, as an [int]. *)
Definition len (s : string) : Z := Z.of_nat (String.length s).

(** ** package regexp *)

Module regexp.

(** The methods of [*regexp.Regexp] that [relabel] calls.  A match is the
    slice of indexes of the package: [loc[0], loc[1]] bound the match and
    [loc[2n], loc[2n+1]] the n-th group; no match is the nil slice, [None].

    The two facts are those of the package documentation: [MatchString]
    reports whether the string contains any match, which is when
    [FindStringSubmatchIndex] is not nil; and [ExpandString] appends the
    template to [dst], so that the empty template leaves [dst] as it is. *)
Record Regexp : Type := {
  MatchString : string -> bool;
  FindStringSubmatchIndex : string -> option (list Z);
  ExpandString : string -> string -> string -> list Z -> string;
  ReplaceAllString : string -> string -> string;
  MatchString_Find :
    forall s, MatchString s = bool_decide (is_Some (FindStringSubmatchIndex s));
  ExpandString_empty :
    forall dst src loc, ExpandString dst "" src loc = dst
}.

(** The leftmost match of the expression is the whole of [s]. *)
Definition FullMatch (re : Regexp) (s : string) : bool :=
  match FindStringSubmatchIndex re s with
  | Some (b :: e :: _) => (b =? 0)%Z && (e =? len s)%Z
  | _ => false
  end.

(** An anchored expression, such as [^(?:...)$]: whatever it matches, it
    matches from the first to the last byte. *)
Definition Anchored (re : Regexp) : Prop :=
  forall s, MatchString re s = true -> FullMatch re s = true.

End regexp.

(** ** package labels *)

Module labels.

(** Modelled from the spec: package [labels] is not among the sources.  A
    label set is "an ordered sequence of (name, value) pairs, names unique",
    two of which "are equal when their sorted (name, value) sequences are
    equal": a finite map from names to values, read in the order of the
    names. *)
Abbreviation Labels := (gmap string string).

Record Label : Type := { Name : string; Value : string }.

(** "Lookup by name returns the value or the empty string." *)
Definition Get (ls : Labels) (name : string) : string := default "" (ls !! name).

Definition name_le (a b : string * string) : Prop := String.leb a.1 b.1 = true.

#[global] Instance name_le_dec : RelDecision name_le.
Proof. intros a b. unfold name_le. apply _. Defined.

(** [for _, l := range ls]: the labels in the order of their names. *)
Definition range (ls : Labels) : list Label :=
  map (fun kv => {| Name := kv.1; Value := kv.2 |}) (merge_sort name_le (map_to_list ls)).

(** Modelled from the spec: the label builder, "a transient object seeded
    from an existing label set.  Operations: Set(name, value), Del(name),
    Labels() (returns the committed set).  Set overwrites; Del is a no-op
    when absent." *)
Module Builder.

Record t : Type := { current : Labels }.

(** [Set] is a word of the language: the method is [Set_] here. *)
Definition Set_ (b : t) (name value : string) : t :=
  {| current := <[name := value]> (current b) |}.

Definition Del (b : t) (name : string) : t :=
  {| current := delete name (current b) |}.

Definition Labels (b : t) : Labels := current b.

End Builder.

Definition NewBuilder (base : Labels) : Builder.t := {| Builder.current := base |}.

End labels.

(** ** package config *)

Module config.

(** Modelled from the spec: the actions of a relabel rule, "action ∈ {Drop,
    Keep, Replace, HashMod, LabelMap, LabelDrop, LabelKeep}".  The Go type
    has more values than the seven constants, and the switch of [relabel]
    has a default branch for them: [RelabelOther]. *)
Inductive RelabelAction : Type :=
| RelabelReplace
| RelabelKeep
| RelabelDrop
| RelabelHashMod
| RelabelLabelMap
| RelabelLabelDrop
| RelabelLabelKeep
| RelabelOther (name : string).

(** [cfg.Regex]: [Initialized()] and the regexp that [Pool.Get()] gives,
    nil being [None].  The regexp that the deferred function puts
    back is the one taken out: the pool is left as it was. *)
Record Regexp : Type := {
  Initialized : bool;
  Pool_Get : option regexp.Regexp
}.

(** Modelled from the spec: "a record with fields: ordered list of source
    label names; a separator string; a compiled regular expression; an
    action; a replacement template; a target label name; a modulus
    (unsigned 64-bit)". *)
Record RelabelConfig : Type := {
  SourceLabels : list string;
  Separator : string;
  Regex : Regexp;
  Modulus : N;
  TargetLabel : string;
  Replacement : string;
  Action : RelabelAction
}.

End config.

Import regexp labels config.

(** ** package crypto/md5 *)

Module md5.

(** The size of an MD5 checksum in bytes. *)
Definition Size : nat := 16.

(** The MD5 message digest of RFC 1321, on 32-bit words held in [Z]. *)

Definition w32 (z : Z) : Z := (z mod 2 ^ 32)%Z.

Definition not32 (x : Z) : Z := Z.lxor x 0xffffffff.

Definition rotl32 (x c : Z) : Z :=
  w32 (Z.lor (Z.shiftl x c) (Z.shiftr x (32 - c))).

Definition table : list Z :=
  [ 0xd76aa478; 0xe8c7b756; 0x242070db; 0xc1bdceee;
    0xf57c0faf; 0x4787c62a; 0xa8304613; 0xfd469501;
    0x698098d8; 0x8b44f7af; 0xffff5bb1; 0x895cd7be;
    0x6b901122; 0xfd987193; 0xa679438e; 0x49b40821;
    0xf61e2562; 0xc040b340; 0x265e5a51; 0xe9b6c7aa;
    0xd62f105d; 0x02441453; 0xd8a1e681; 0xe7d3fbc8;
    0x21e1cde6; 0xc33707d6; 0xf4d50d87; 0x455a14ed;
    0xa9e3e905; 0xfcefa3f8; 0x676f02d9; 0x8d2a4c8a;
    0xfffa3942; 0x8771f681; 0x6d9d6122; 0xfde5380c;
    0xa4beea44; 0x4bdecfa9; 0xf6bb4b60; 0xbebfbc70;
    0x289b7ec6; 0xeaa127fa; 0xd4ef3085; 0x04881d05;
    0xd9d4d039; 0xe6db99e5; 0x1fa27cf8; 0xc4ac5665;
    0xf4292244; 0x432aff97; 0xab9423a7; 0xfc93a039;
    0x655b59c3; 0x8f0ccc92; 0xffeff47d; 0x85845dd1;
    0x6fa87e4f; 0xfe2ce6e0; 0xa3014314; 0x4e0811a1;
    0xf7537e82; 0xbd3af235; 0x2ad7d2bb; 0xeb86d391 ]%Z.

Definition shifts : list Z :=
  [ 7; 12; 17; 22; 7; 12; 17; 22; 7; 12; 17; 22; 7; 12; 17; 22;
    5; 9; 14; 20; 5; 9; 14; 20; 5; 9; 14; 20; 5; 9; 14; 20;
    4; 11; 16; 23; 4; 11; 16; 23; 4; 11; 16; 23; 4; 11; 16; 23;
    6; 10; 15; 21; 6; 10; 15; 21; 6; 10; 15; 21; 6; 10; 15; 21 ]%Z.

Record digest : Type := { dA : Z; dB : Z; dC : Z; dD : Z }.

Definition init : digest :=
  {| dA := 0x67452301; dB := 0xefcdab89; dC := 0x98badcfe; dD := 0x10325476 |}.

(** Operation [i] of the 64 on one block, whose 16 words are [M]. *)
Definition step (M : list Z) (st : digest) (i : Z) : digest :=
  let '(Build_digest a b c d) := st in
  let '(f, g) :=
    if (i <? 16)%Z then (Z.lor (Z.land b c) (Z.land (not32 b) d), i)
    else if (i <? 32)%Z then
      (Z.lor (Z.land d b) (Z.land (not32 d) c), ((5 * i + 1) mod 16)%Z)
    else if (i <? 48)%Z then (Z.lxor (Z.lxor b c) d, ((3 * i + 5) mod 16)%Z)
    else (Z.lxor c (Z.lor b (not32 d)), ((7 * i) mod 16)%Z) in
  let f' := w32 (f + a + nth (Z.to_nat i) table 0 + nth (Z.to_nat g) M 0)%Z in
  {| dA := d;
     dB := w32 (b + rotl32 f' (nth (Z.to_nat i) shifts 0%Z));
     dC := b;
     dD := c |}.

Definition le32 (bs : list Z) : Z :=
  fold_right (fun b acc => (b + 256 * acc)%Z) 0%Z bs.

Fixpoint words (n : nat) (bs : list Z) : list Z :=
  match n with
  | O => []
  | S n' => le32 (firstn 4 bs) :: words n' (skipn 4 bs)
  end.

Definition block (st : digest) (bs : list Z) : digest :=
  let M := words 16 bs in
  let st' := fold_left (step M) (map Z.of_nat (seq 0 64)) st in
  {| dA := w32 (dA st + dA st'); dB := w32 (dB st + dB st');
     dC := w32 (dC st + dC st'); dD := w32 (dD st + dD st') |}.

Fixpoint blocks (n : nat) (st : digest) (bs : list Z) : digest :=
  match n with
  | O => st
  | S n' => blocks n' (block st (firstn 64 bs)) (skipn 64 bs)
  end.

Definition le_bytes (n : nat) (z : Z) : list Z :=
  map (fun k => ((z / 256 ^ Z.of_nat k) mod 256)%Z) (seq 0 n).

Definition pad (msg : list Z) : list Z :=
  let bytes := Z.of_nat (length msg) in
  msg ++ [128%Z] ++ repeat 0%Z (Z.to_nat ((55 - bytes) mod 64))
      ++ le_bytes 8 ((8 * bytes) mod 2 ^ 64).

Definition to_byte (z : Z) : byte :=
  default x00 (Byte.of_N (Z.to_N (z mod 256))).

Definition word_byte (w : Z) (k : Z) : byte := to_byte (w / 256 ^ k).

(** [md5.Sum(data)]: the checksum, an array of [Size] bytes. *)
Definition Sum (data : string) : vec byte Size :=
  let msg := map (fun c => Z.of_N (N_of_ascii c)) (list_ascii_of_string data) in
  let p := pad msg in
  let st := blocks (length p / 64) init p in
  [# word_byte (dA st) 0; word_byte (dA st) 1; word_byte (dA st) 2; word_byte (dA st) 3;
     word_byte (dB st) 0; word_byte (dB st) 1; word_byte (dB st) 2; word_byte (dB st) 3;
     word_byte (dC st) 0; word_byte (dC st) 1; word_byte (dC st) 2; word_byte (dC st) 3;
     word_byte (dD st) 0; word_byte (dD st) 1; word_byte (dD st) 2; word_byte (dD st) 3 ].

End md5.

(** ** package model: label names *)

Module model.

Definition is_letter (c : ascii) : bool :=
  let n := N_of_ascii c in
  ((97 <=? n) && (n <=? 122) || (65 <=? n) && (n <=? 90) || (n =? 95))%N.

Definition is_digit (c : ascii) : bool :=
  let n := N_of_ascii c in ((48 <=? n) && (n <=? 57))%N.

(** [LabelName.IsValid]: a letter or an underscore, then letters, digits and
    underscores. *)
Definition IsValid (ln : string) : bool :=
  match ln with
  | EmptyString => false
  | String c rest =>
      is_letter c
      && forallb (fun b => is_letter b || is_digit b) (list_ascii_of_string rest)
  end.

End model.

(** ** Compiled expressions, by what their methods return *)

Module compiled.

Import regexp.

(** The longest prefix of letters, digits and underscores, and the rest. *)
Fixpoint span_name (s : string) : string * string :=
  match s with
  | EmptyString => (EmptyString, EmptyString)
  | String c s' =>
      if model.is_letter c || model.is_digit c then
        let '(name, rest) := span_name s' in (String c name, rest)
      else (EmptyString, s)
  end.

(** The number that a name of digits denotes, -1 for any other name. *)
Definition number (name : string) : Z :=
  let digits := list_ascii_of_string name in
  if forallb model.is_digit digits
     && negb (match digits with c :: _ :: _ => Ascii.eqb c "0" | _ => false end)
     && (length digits <=? 9)%nat
  then fold_left (fun n c => (n * 10 + (Z.of_N (N_of_ascii c) - 48))%Z) digits 0%Z
  else (-1)%Z.

(** The variable that follows a dollar sign: [name] or [{name}]. *)
Definition extract (str : string) : option (string * Z * string) :=
  match str with
  | EmptyString => None
  | String c str' =>
      let brace := Ascii.eqb c "{" in
      let '(name, rest) := span_name (if brace then str' else str) in
      match name with
      | EmptyString => None
      | _ =>
          if brace then
            match rest with
            | String c' rest' =>
                if Ascii.eqb c' "}" then Some (name, number name, rest') else None
            | EmptyString => None
            end
          else Some (name, number name, rest)
      end
  end.

(** [src[loc[2i]:loc[2i+1]]] when group [i] took part in the match. *)
Definition group (src : string) (loc : list Z) (i : nat) : option string :=
  match loc !! (2 * i)%nat, loc !! (2 * i + 1)%nat with
  | Some b, Some e =>
      if (0 <=? b)%Z then Some (substring (Z.to_nat b) (Z.to_nat (e - b)) src)
      else None
  | _, _ => None
  end.

Fixpoint named_group (names : list string) (i : nat) (name src : string) (loc : list Z)
  : string :=
  match names with
  | [] => EmptyString
  | namei :: names' =>
      match (if String.eqb name namei then group src loc i else None) with
      | Some text => text
      | None => named_group names' (S i) name src loc
      end
  end.

(** The expansion of a template, appended to [dst]: [$$] is a dollar sign,
    [$name] and [${name}] are the text of a group, and a dollar sign that
    starts no variable stands for itself. *)
Fixpoint expand (fuel : nat) (names : list string) (dst template src : string)
  (loc : list Z) : string :=
  match fuel with
  | O => dst ++ template
  | S fuel' =>
      match template with
      | EmptyString => dst
      | String c t' =>
          if Ascii.eqb c "$" then
            match t' with
            | String c' t'' =>
                if Ascii.eqb c' "$" then expand fuel' names (dst ++ "$") t'' src loc
                else
                  match extract t' with
                  | None => expand fuel' names (dst ++ "$") t' src loc
                  | Some (name, num, rest) =>
                      let text :=
                        if (0 <=? num)%Z then default EmptyString (group src loc (Z.to_nat num))
                        else named_group names 0 name src loc in
                      expand fuel' names (dst ++ text) rest src loc
                  end
            | EmptyString => dst ++ "$"
            end
          else expand fuel' names (dst ++ String c EmptyString) t' src loc
      end
  end.

Definition expand_template (names : list string) (dst template src : string)
  (loc : list Z) : string :=
  expand (S (String.length template)) names dst template src loc.

(** Every occurrence of [lit], from left to right, replaced by [text]. *)
Fixpoint replace_literal (lit text : string) (skip : nat) (src : string) : string :=
  match src with
  | EmptyString => EmptyString
  | String c src' =>
      match skip with
      | S k => replace_literal lit text k src'
      | O =>
          if String.prefix lit src then
            text ++ replace_literal lit text (String.length lit - 1) src'
          else String c (replace_literal lit text 0 src')
      end
  end.

(** [regexp.MustCompile(regexp.QuoteMeta(lit))] for the non-empty
    [lit = String c rest]: the expression matches where [lit] occurs. *)
Definition Literal (c : ascii) (rest : string) : Regexp :=
  let lit := String c rest in
  let find (s : string) : option (list Z) :=
    match String.index 0 lit s with
    | Some i => Some [Z.of_nat i; (Z.of_nat i + len lit)%Z]
    | None => None
    end in
  {| MatchString s := bool_decide (is_Some (find s));
     FindStringSubmatchIndex := find;
     ExpandString := expand_template [EmptyString];
     ReplaceAllString src repl :=
       replace_literal lit
         (expand_template [EmptyString] EmptyString repl lit [0%Z; len lit]) 0 src;
     MatchString_Find := fun _ => eq_refl;
     ExpandString_empty := fun _ _ _ => eq_refl |}.

(** [regexp.MustCompile("^(?:" + regexp.QuoteMeta(lit) + ")$")]: the
    expression matches the string [lit] and no other. *)
Definition AnchoredLiteral (lit : string) : Regexp :=
  let find (s : string) : option (list Z) :=
    if String.eqb s lit then Some [0%Z; len s] else None in
  {| MatchString s := bool_decide (is_Some (find s));
     FindStringSubmatchIndex := find;
     ExpandString := expand_template [EmptyString];
     ReplaceAllString src repl :=
       if String.eqb src lit
       then expand_template [EmptyString] EmptyString repl src [0%Z; len src]
       else src;
     MatchString_Find := fun _ => eq_refl;
     ExpandString_empty := fun _ _ _ => eq_refl |}.

(** [regexp.MustCompile("^(?:([^:]+):(\\d+))$")]: a host, a colon and a port
    of decimal digits.  The host, group 1, ends at the first colon, and the
    port, group 2, is the rest of the string. *)
Definition HostPort : Regexp :=
  let find (s : string) : option (list Z) :=
    match String.index 0 ":" s with
    | Some c =>
        let port := substring (S c) (String.length s - S c) s in
        if (1 <=? c)%nat && (1 <=? String.length port)%nat
           && forallb model.is_digit (list_ascii_of_string port)
        then Some [0%Z; len s; 0%Z; Z.of_nat c; (Z.of_nat c + 1)%Z; len s]
        else None
    | None => None
    end in
  let names := [EmptyString; EmptyString; EmptyString] in
  {| MatchString s := bool_decide (is_Some (find s));
     FindStringSubmatchIndex := find;
     ExpandString := expand_template names;
     ReplaceAllString src repl :=
       match find src with
       | Some loc => expand_template names EmptyString repl src loc
       | None => src
       end;
     MatchString_Find := fun _ => eq_refl;
     ExpandString_empty := fun _ _ _ => eq_refl |}.

(** A rule's regexp, initialized, with [re] in its pool. *)
Definition pooled (re : Regexp) : config.Regexp :=
  {| Initialized := true; Pool_Get := Some re |}.

(** A rule's regexp that was never set. *)
Definition unset : config.Regexp :=
  {| Initialized := false; Pool_Get := None |}.

End compiled.

(** ** Label sets and rules of the examples *)

Module examples.

Import compiled.

Definition rule (action : RelabelAction) (source : list string) (re : config.Regexp)
  (target replacement : string) (modulus : N) : RelabelConfig :=
  {| SourceLabels := source; Separator := ";"; Regex := re; Modulus := modulus;
     TargetLabel := target; Replacement := replacement; Action := action |}.

Definition job (value : string) : Labels := {[ "job" := value ]}.

Definition job_tier (value tier : string) : Labels :=
  <[ "tier" := tier ]> (job value).

Definition instance_foo : Labels := {[ "instance" := "foo" ]}.

(** action=Drop, source_labels=["job"], regex="^canary$". *)
Definition drop_canary : RelabelConfig :=
  rule RelabelDrop ["job"] (pooled (AnchoredLiteral "canary")) "" "" 0.

(** The same rule with the expression [canary], which has no anchors. *)
Definition drop_canary_anywhere : RelabelConfig :=
  rule RelabelDrop ["job"] (pooled (Literal "c" "anary")) "" "" 0.

Definition keep_canary : RelabelConfig :=
  rule RelabelKeep ["job"] (pooled (AnchoredLiteral "canary")) "" "" 0.

Definition keep_canary_anywhere : RelabelConfig :=
  rule RelabelKeep ["job"] (pooled (Literal "c" "anary")) "" "" 0.

(** action=Replace, source_labels=["addr"], regex="([^:]+):(\\d+)",
    target_label="host", replacement="$1". *)
Definition replace_host : RelabelConfig :=
  rule RelabelReplace ["addr"] (pooled HostPort) "host" "$1" 0.

Definition addr (value : string) : Labels := {[ "addr" := value ]}.

(** action=Replace on the jobs named canary: the label tier becomes test. *)
Definition replace_tier (replacement : string) : RelabelConfig :=
  rule RelabelReplace ["job"] (pooled (AnchoredLiteral "canary")) "tier" replacement 0.

(** action=HashMod, source_labels=["instance"], modulus=8,
    target_label="shard". *)
Definition hashmod_shard : RelabelConfig :=
  rule RelabelHashMod ["instance"] unset "shard" "" 8.

Definition labelkeep_job : RelabelConfig :=
  rule RelabelLabelKeep [] (pooled (AnchoredLiteral "job")) "" "" 0.

Definition unknown_action : RelabelConfig :=
  rule (RelabelOther "rename") ["job"] (pooled (AnchoredLiteral "canary")) "" "" 0.

End examples.

(** ** Rules on label names, for the examples *)

Module scenarios.

Import compiled examples.

(** action=LabelDrop, regex="^job$". *)
Definition labeldrop_job : RelabelConfig :=
  rule RelabelLabelDrop [] (pooled (AnchoredLiteral "job")) "" "" 0.

(** action=LabelMap, regex="^job$", replacement="task". *)
Definition labelmap_job : RelabelConfig :=
  rule RelabelLabelMap [] (pooled (AnchoredLiteral "job")) "" "task" 0.

Definition job_instance (value : string) : Labels :=
  <[ "job" := value ]> instance_foo.

End scenarios.

(** ** queue_manager_test.go: the storage client of the tests *)

Module stackdriver.

(** The run-time panics that the client's methods can raise: a nil pointer
    dereference, a slice expression out of range, and the negative counter
    of [sync.WaitGroup]. *)
Inductive fault : Type :=
| NilPointer
| SliceBounds
| NegativeCounter.

(** The outcome of a method: it returns or it panics. *)
Inductive run (A : Type) : Type :=
| Returns (a : A)
| Faults (f : fault).

Arguments Returns {A} a.
Arguments Faults {A} f.

Definition run_bind {A B : Type} (f : A -> run B) (m : run A) : run B :=
  match m with
  | Returns a => f a
  | Faults e => Faults e
  end.

#[global] Instance run_mbind : MBind run := @run_bind.
#[global] Instance run_mret : MRet run := @Returns.

(** [for _, x := range xs { acc = body acc x }], as far as no body panics. *)
Fixpoint for_each {A B : Type} (body : B -> A -> run B) (xs : list A) (acc : B) : run B :=
  match xs with
  | [] => Returns acc
  | x :: xs' => acc' ← body acc x; for_each body xs' acc'
  end.

(** [*p] and [p.f]: a nil pointer panics. *)
Definition deref {A : Type} (p : option A) : run A :=
  match p with
  | Some a => Returns a
  | None => Faults NilPointer
  end.

(** [s[low:]]: panics when [low] is beyond the length of [s]. *)
Definition slice_from (s : string) (low : nat) : run string :=
  if (low <=? String.length s)%nat
  then Returns (substring low (String.length s - low) s)
  else Faults SliceBounds.

(** The conversion to int32, which wraps around. *)
Definition int32 (z : Z) : Z := ((z + 2 ^ 31) mod 2 ^ 32 - 2 ^ 31)%Z.

(** [sync.WaitGroup.Add] while no goroutine waits: the counter is an int32,
    and [Add] panics when the counter it leaves is negative. *)
Definition WaitGroup_Add (counter delta : Z) : run Z :=
  let v := int32 (counter + delta) in
  if (v <? 0)%Z then Faults NegativeCounter else Returns v.

(** Go's float64. *)
Definition float64 : Type := PrimFloat.float.

Section Client.

(** The constant [metricsPrefix] of the package. *)
Variable metricsPrefix : string.

(** The messages of package monitoring, with the fields that [Store] reads;
    a pointer is an option. *)
Record TypedValue : Type := { DoubleValue : option float64 }.
Record Point : Type := { Point_Value : option TypedValue }.
Record Metric : Type := { Metric_Type : string }.
Record TimeSeries : Type := {
  TimeSeries_Metric : option Metric;
  TimeSeries_Points : list (option Point)
}.
Record CreateTimeSeriesRequest : Type := {
  Request_TimeSeries : list (option TimeSeries)
}.

(** The sample of the tests. *)
Record sample : Type := { Name : string; Value : float64 }.

(** The client: the two maps and the counter of its wait group.  Its mutex
    is held during each method. *)
Record TestStorageClient : Type := {
  receivedSamples : gmap string (list sample);
  expectedSamples : gmap string (list sample);
  wg : Z
}.

Definition NewTestStorageClient : TestStorageClient :=
  {| receivedSamples := ∅; expectedSamples := ∅; wg := 0 |}.

(** [m[name] = append(m[name], s)]. *)
Definition append_to (m : gmap string (list sample)) (name : string) (s : sample)
  : gmap string (list sample) :=
  <[name := (default [] (m !! name) ++ [s])%list]> m.

Definition expectSamples (c : TestStorageClient) (samples : list sample)
  : run TestStorageClient :=
  let expected :=
    fold_left (fun m s => append_to m (Name s) s) samples (expectedSamples c) in
  wg' ← WaitGroup_Add (wg c) (Z.of_nat (length samples));
  Returns {| receivedSamples := receivedSamples c;
             expectedSamples := expected;
             wg := wg' |}.

Definition Store (c : TestStorageClient) (req : option CreateTimeSeriesRequest)
  : run TestStorageClient :=
  req' ← deref req;
  rc ← for_each
         (fun rc ts =>
            ts' ← deref ts;
            metric ← deref (TimeSeries_Metric ts');
            let metricType := Metric_Type metric in
            name ← slice_from metricType (String.length metricsPrefix + 1);
            for_each
              (fun rc point =>
                 point' ← deref point;
                 value ← deref (Point_Value point');
                 v ← deref (DoubleValue value);
                 let s := {| Name := name; Value := v |} in
                 Returns (append_to rc.1 name s, (rc.2 + 1)%Z))
              (TimeSeries_Points ts') rc)
         (Request_TimeSeries req') (receivedSamples c, 0%Z);
  wg' ← WaitGroup_Add (wg c) (- rc.2);
  Returns {| receivedSamples := rc.1;
             expectedSamples := expectedSamples c;
             wg := wg' |}.

(** The samples that a request carries, in its order; [None] when one of
    its pointers is nil or a metric type is shorter than the prefix and its
    separator. *)
Definition point_sample (name : string) (p : option Point) : option sample :=
  match p with
  | Some {| Point_Value := Some {| DoubleValue := Some v |} |} =>
      Some {| Name := name; Value := v |}
  | _ => None
  end.

Definition series_samples (ts : option TimeSeries) : option (list sample) :=
  match ts with
  | Some {| TimeSeries_Metric := Some metric; TimeSeries_Points := points |} =>
      let metricType := Metric_Type metric in
      let low := (String.length metricsPrefix + 1)%nat in
      if (low <=? String.length metricType)%nat then
        mapM (point_sample (substring low (String.length metricType - low) metricType))
             points
      else None
  | _ => None
  end.

Definition carried (req : option CreateTimeSeriesRequest) : option (list sample) :=
  match req with
  | Some req' => (fun sss => List.concat sss) <$> mapM series_samples (Request_TimeSeries req')
  | None => None
  end.

(** The samples of a name among [samples], in their order. *)
Definition named (name : string) (samples : list sample) : list sample :=
  filter (fun s => Name s = name) samples.

Definition record_all (m : gmap string (list sample)) (samples : list sample)
  : gmap string (list sample) :=
  fold_left (fun m s => append_to m (Name s) s) samples m.

(** The bodies of the two loops of [Store]. *)
Definition points_body (name : string) (rc : gmap string (list sample) * Z)
  (point : option Point) : run (gmap string (list sample) * Z) :=
  point' ← deref point;
  value ← deref (Point_Value point');
  v ← deref (DoubleValue value);
  let s := {| Name := name; Value := v |} in
  Returns (append_to rc.1 name s, (rc.2 + 1)%Z).

Definition series_body (rc : gmap string (list sample) * Z) (ts : option TimeSeries)
  : run (gmap string (list sample) * Z) :=
  ts' ← deref ts;
  metric ← deref (TimeSeries_Metric ts');
  let metricType := Metric_Type metric in
  name ← slice_from metricType (String.length metricsPrefix + 1);
  for_each (points_body name) (TimeSeries_Points ts') rc.

End Client.

(** A request in the shape of those of the tests: two series, one with two
    points and one with one point. *)
Definition prefix : string := "custom.googleapis.com".

Definition point (v : float64) : option Point :=
  Some {| Point_Value := Some {| DoubleValue := Some v |} |}.

Definition series (prefix name : string) (values : list float64) : option TimeSeries :=
  Some {| TimeSeries_Metric := Some {| Metric_Type := prefix ++ "/" ++ name |};
          TimeSeries_Points := map point values |}.

Definition request : option CreateTimeSeriesRequest :=
  Some {| Request_TimeSeries :=
            [series prefix "test_metric0" [PrimFloat.zero; PrimFloat.one];
             series prefix "test_metric1" [PrimFloat.two]] |}.

Definition samples : list sample :=
  [{| Name := "test_metric0"; Value := PrimFloat.zero |};
   {| Name := "test_metric0"; Value := PrimFloat.one |};
   {| Name := "test_metric1"; Value := PrimFloat.two |}].

(** The client that awaits the samples of the request, and the client once
    they are stored. *)
Definition awaiting : TestStorageClient :=
  {| receivedSamples := ∅; expectedSamples := record_all ∅ samples; wg := 3 |}.

Definition stored : TestStorageClient :=
  {| receivedSamples := record_all ∅ samples;
     expectedSamples := record_all ∅ samples;
     wg := 0 |}.

End stackdriver.

(** The bytes of a checksum in hexadecimal. *)

Definition hex_digit (n : N) : ascii :=
  ascii_of_N (if (n <? 10)%N then 48 + n else 87 + n).

Definition hex (bs : list byte) : string :=
  string_of_list_ascii
    (flat_map (fun b => [hex_digit (Byte.to_N b / 16); hex_digit (Byte.to_N b mod 16)]) bs).

(** ** relabel.go *)

(** [for i, b := range hash]: the elements with their indexes. *)
Definition indexed {A : Type} (l : list A) : list (nat * A) :=
  combine (seq 0 (length l)) l.

(** sum64 sums the md5 hash to an uint64. *)
Definition sum64 (hash : vec byte md5.Size) : N :=
  fold_left
    (fun s ib =>
       let shift := uint64 ((Z.of_nat md5.Size - Z.of_nat ib.1 - 1) * 8) in
       or64 s (shl64 (uint64_of_byte ib.2) shift))
    (indexed (vec_to_list hash)) 0%N.

(** The body of the loop of [sum64]. *)
Definition sum64_step (s : N) (ib : nat * byte) : N :=
  let shift := uint64 ((Z.of_nat md5.Size - Z.of_nat ib.1 - 1) * 8) in
  or64 s (shl64 (uint64_of_byte ib.2) shift).

(** Bytes read as one number, the most significant byte first. *)
Definition big_endian (bs : list byte) : N :=
  fold_left (fun n b => (n * 256 + Byte.to_N b)%N) bs 0%N.

(** The number that a string of decimal digits denotes. *)
Definition decimal_value (s : string) : option N :=
  N.of_uint <$> NilZero.uint_of_string s.

(** The nil [*regexp.Regexp] has no methods to call. *)
Definition deref (regex : option regexp.Regexp) : exec regexp.Regexp :=
  match regex with
  | Some re => Done re
  | None => Panicked NilDereference
  end.

Section Relabel.

(** The checksum function, [md5.Sum] of package crypto/md5: what is proved
    of [relabel] holds whatever the function computes. *)
Variable md5_Sum : string -> vec byte md5.Size.

(** [model.LabelName.IsValid] of package model. *)
Variable IsValid : string -> bool.

(** The probe string: the values of the source labels, joined. *)
Definition probe (lset : Labels) (cfg : RelabelConfig) : string :=
  let values := map (fun ln => Get lset ln) (SourceLabels cfg) in
  strings_Join values (Separator cfg).

(** The regexp taken from the pool of the rule. *)
Definition checkout (cfg : RelabelConfig) : exec (option regexp.Regexp) :=
  if Initialized (Regex cfg) then
    match Pool_Get (Regex cfg) with
    | Some regex => Done (Some regex)
    | None => Panicked NilPooledRegexp
    end
  else Done None.

Definition relabel (lset : Labels) (cfg : RelabelConfig) : exec (option Labels) :=
  let val := probe lset cfg in
  let lb := NewBuilder lset in
  regex ← checkout cfg;
  match Action cfg with
  | RelabelDrop =>
      re ← deref regex;
      if MatchString re val then Done None
      else Done (Some (Builder.Labels lb))
  | RelabelKeep =>
      re ← deref regex;
      if negb (MatchString re val) then Done None
      else Done (Some (Builder.Labels lb))
  | RelabelReplace =>
      re ← deref regex;
      match FindStringSubmatchIndex re val with
      | None => Done (Some (Builder.Labels lb))
      | Some indexes =>
          let target := ExpandString re "" (TargetLabel cfg) val indexes in
          if negb (IsValid target) then
            Done (Some (Builder.Labels (Builder.Del lb (TargetLabel cfg))))
          else
            let res := ExpandString re "" (Replacement cfg) val indexes in
            if (len res =? 0)%Z then
              Done (Some (Builder.Labels (Builder.Del lb (TargetLabel cfg))))
            else
              Done (Some (Builder.Labels (Builder.Set_ lb target res)))
      end
  | RelabelHashMod =>
      if (Modulus cfg =? 0)%N then Panicked DivideByZero
      else
        let mod_ := (sum64 (md5_Sum val) mod Modulus cfg)%N in
        Done (Some (Builder.Labels (Builder.Set_ lb (TargetLabel cfg) (FormatUint mod_))))
  | RelabelLabelMap =>
      lb' ← for_range
              (fun lb l =>
                 re ← deref regex;
                 if MatchString re (Name l) then
                   let res := ReplaceAllString re (Name l) (Replacement cfg) in
                   Done (Builder.Set_ lb res (Value l))
                 else Done lb)
              (range lset) lb;
      Done (Some (Builder.Labels lb'))
  | RelabelLabelDrop =>
      lb' ← for_range
              (fun lb l =>
                 re ← deref regex;
                 if MatchString re (Name l) then Done (Builder.Del lb (Name l))
                 else Done lb)
              (range lset) lb;
      Done (Some (Builder.Labels lb'))
  | RelabelLabelKeep =>
      lb' ← for_range
              (fun lb l =>
                 re ← deref regex;
                 if negb (MatchString re (Name l)) then Done (Builder.Del lb (Name l))
                 else Done lb)
              (range lset) lb;
      Done (Some (Builder.Labels lb'))
  | RelabelOther a => Panicked (UnknownAction a)
  end.

(** Process returns a relabeled copy of the given label set. The relabel
    configurations are applied in order of input.  If a label set is dropped,
    nil is returned. *)
Fixpoint Process (labels : Labels) (cfgs : list RelabelConfig) : exec (option Labels) :=
  match cfgs with
  | [] => Done (Some labels)
  | cfg :: cfgs' =>
      r ← relabel labels cfg;
      match r with
      | None => Done None
      | Some labels' => Process labels' cfgs'
      end
  end.

(** The pipeline in the words of the spec: "Rules are applied in order; the
    output of rule i is the input of rule i+1."  [in_order ls cfgs ls']:
    each rule of [cfgs], applied to the label set that the rule before it
    returned, returns a label set, and the last one returns [ls']. *)
Inductive in_order : Labels -> list RelabelConfig -> Labels -> Prop :=
| in_order_nil ls : in_order ls [] ls
| in_order_cons ls cfg ls1 cfgs ls' :
    relabel ls cfg = Done (Some ls1) ->
    in_order ls1 cfgs ls' ->
    in_order ls (cfg :: cfgs) ls'.

(** Rule [cfg] of [cfgs] is reached with the label set [ls]: the rules
    before it returned label sets, the last of them [ls]. *)
Definition reaches (labels : Labels) (cfgs : list RelabelConfig)
  (cfg : RelabelConfig) (ls : Labels) : Prop :=
  exists before after, cfgs = (before ++ cfg :: after)%list /\ in_order labels before ls.

(** The outcomes of a rule that end the loop of [Process]: nil and a panic. *)
Definition ends_loop (r : exec (option Labels)) : Prop :=
  match r with
  | Done (Some _) => False
  | _ => True
  end.

(** The invariants of a rule in the words of the spec: "the regex must be
    non-null when action ≠ HashMod; modulus must be > 0 when action =
    HashMod", for one of the seven actions; and a regexp that is initialized
    has a regexp in its pool. *)
Definition known (a : RelabelAction) : bool :=
  match a with
  | RelabelOther _ => false
  | _ => true
  end.

Definition non_null (re : config.Regexp) : bool :=
  Initialized re && bool_decide (is_Some (Pool_Get re)).

Definition validated (cfg : RelabelConfig) : bool :=
  match Action cfg with
  | RelabelOther _ => false
  | RelabelHashMod =>
      (0 <? Modulus cfg)%N && (negb (Initialized (Regex cfg)) || non_null (Regex cfg))
  | _ => non_null (Regex cfg)
  end.

(** The body of the loop of action LabelKeep once the regexp of the rule is
    at hand. *)
Definition keep_step (re : regexp.Regexp) (lb : Builder.t) (l : Label) : Builder.t :=
  if negb (MatchString re (Name l)) then Builder.Del lb (Name l) else lb.

(** The bodies of the loops of LabelDrop and LabelMap once the regexp of the
    rule is at hand. *)
Definition drop_step (re : regexp.Regexp) (lb : Builder.t) (l : Label) : Builder.t :=
  if MatchString re (Name l) then Builder.Del lb (Name l) else lb.

Definition map_step (re : regexp.Regexp) (replacement : string) (lb : Builder.t)
  (l : Label) : Builder.t :=
  if MatchString re (Name l) then
    Builder.Set_ lb (ReplaceAllString re (Name l) replacement) (Value l)
  else lb.

(** The panic that [relabel] ends in on [lset] and [cfg], if any, in the
    order in which the code reaches them: the regexp taken from the pool,
    then the branch of the action. *)
Definition panic_of (lset : Labels) (cfg : RelabelConfig) : option panic :=
  if Initialized (Regex cfg) && negb (bool_decide (is_Some (Pool_Get (Regex cfg))))
  then Some NilPooledRegexp
  else
    let nil_regexp := negb (Initialized (Regex cfg)) in
    match Action cfg with
    | RelabelDrop | RelabelKeep | RelabelReplace =>
        if nil_regexp then Some NilDereference else None
    | RelabelHashMod => if (Modulus cfg =? 0)%N then Some DivideByZero else None
    | RelabelLabelMap | RelabelLabelDrop | RelabelLabelKeep =>
        if nil_regexp && negb (bool_decide (lset = ∅)) then Some NilDereference else None
    | RelabelOther a => Some (UnknownAction a)
    end.

(** * Properties *)

(** ** The checksum of RFC 1321 on its test suite *)

Example md5_Sum_empty :
  hex (vec_to_list (md5.Sum "")) = "d41d8cd98f00b204e9800998ecf8427e".
Proof. vm_compute. reflexivity. Qed.

Example md5_Sum_abc :
  hex (vec_to_list (md5.Sum "abc")) = "900150983cd24fb0d6963f7d28e17f72".
Proof. vm_compute. reflexivity. Qed.

Example md5_Sum_message_digest :
  hex (vec_to_list (md5.Sum "message digest")) = "f96b697d7cb7938d525a2f31aaf161d0".
Proof. vm_compute. reflexivity. Qed.

Example md5_Sum_two_blocks :
  hex (vec_to_list (md5.Sum
    "12345678901234567890123456789012345678901234567890123456789012345678901234567890"))
  = "57edf4a22be3c955ac49da2e2107b67a".
Proof. vm_compute. reflexivity. Qed.

(** ** The outcomes of [exec] *)

Lemma exec_bind_Done {A B : Type} (f : A -> exec B) (a : A) :
  (Done a ≫= f) = f a.
Proof. reflexivity. Qed.

Lemma exec_bind_Panicked {A B : Type} (f : A -> exec B) (p : panic) :
  (Panicked p ≫= f) = Panicked p.
Proof. reflexivity. Qed.

Lemma exec_bind_inv {A B : Type} (f : A -> exec B) (m : exec A) (b : B) :
  (m ≫= f) = Done b -> exists a, m = Done a /\ f a = Done b.
Proof.
  destruct m as [a|p]; intros H.
  - exists a. split; [reflexivity | exact H].
  - discriminate H.
Qed.

(** A loop whose body does not panic is a fold. *)
Lemma for_range_pure {A B : Type} (f : B -> A -> B) (xs : list A) (acc : B) :
  for_range (fun b a => Done (f b a)) xs acc = Done (fold_left f xs acc).
Proof.
  revert acc. induction xs as [|x xs IH]; intros acc; simpl.
  - reflexivity.
  - apply IH.
Qed.

Lemma for_range_ext {A B : Type} (f g : B -> A -> exec B) (xs : list A) (acc : B) :
  (forall b a, f b a = g b a) -> for_range f xs acc = for_range g xs acc.
Proof.
  intros Hfg. revert acc. induction xs as [|x xs IH]; intros acc; simpl.
  - reflexivity.
  - rewrite Hfg. destruct (g acc x) as [b|p]; simpl; [apply IH | reflexivity].
Qed.

(** ** [Process] *)

Lemma Process_cons (labels : Labels) (cfg : RelabelConfig) (cfgs : list RelabelConfig) :
  Process labels (cfg :: cfgs) =
  match relabel labels cfg with
  | Done (Some labels') => Process labels' cfgs
  | Done None => Done None
  | Panicked p => Panicked p
  end.
Proof. simpl. destruct (relabel labels cfg) as [[ls|]|p]; reflexivity. Qed.

Lemma in_order_nil_inv (ls ls' : Labels) : in_order ls [] ls' -> ls = ls'.
Proof. intros H. inversion H. reflexivity. Qed.

Lemma in_order_cons_inv (ls ls' : Labels) (cfg : RelabelConfig) (cfgs : list RelabelConfig) :
  in_order ls (cfg :: cfgs) ls' ->
  exists ls1, relabel ls cfg = Done (Some ls1) /\ in_order ls1 cfgs ls'.
Proof. intros H. inversion H as [|? ? ls1 ? ? E Hrest]. exists ls1. split; assumption. Qed.

(** When every rule returns a label set, the last of them is returned. *)
Lemma Process_Some_in_order (labels : Labels) (cfgs : list RelabelConfig) (ls' : Labels) :
  Process labels cfgs = Done (Some ls') <-> in_order labels cfgs ls'.
Proof.
  revert labels. induction cfgs as [|cfg cfgs IH]; intros labels.
  - simpl. split.
    + intros H. injection H as <-. constructor.
    + intros H. apply in_order_nil_inv in H as <-. reflexivity.
  - rewrite Process_cons. split.
    + intros H. destruct (relabel labels cfg) as [[ls1|]|p] eqn:E; try discriminate H.
      apply in_order_cons with ls1; [exact E | apply IH, H].
    + intros H. apply in_order_cons_inv in H as (ls1 & E & Hrest).
      rewrite E. apply IH, Hrest.
Qed.

(** [Process] has such an outcome exactly when some rule, reached in order,
    has it: the rules after that one play no part. *)
Lemma Process_ends_loop (labels : Labels) (cfgs : list RelabelConfig)
  (r : exec (option Labels)) :
  ends_loop r ->
  Process labels cfgs = r <->
  exists cfg ls, reaches labels cfgs cfg ls /\ relabel ls cfg = r.
Proof.
  intros Hr. revert labels. induction cfgs as [|cfg0 cfgs IH]; intros labels.
  - simpl. split.
    + intros <-. destruct Hr.
    + intros (cfg & ls & (before & after & Heq & _) & _).
      destruct before; discriminate Heq.
  - rewrite Process_cons. split.
    + intros H. destruct (relabel labels cfg0) as [[ls1|]|p] eqn:E.
      * apply IH in H. destruct H as (cfg & ls & (before & after & -> & Hord) & Hcfg).
        exists cfg, ls. split; [|exact Hcfg].
        exists (cfg0 :: before), after. split; [reflexivity|].
        apply in_order_cons with ls1; assumption.
      * exists cfg0, labels. split; [|congruence].
        exists [], cfgs. split; [reflexivity | constructor].
      * exists cfg0, labels. split; [|congruence].
        exists [], cfgs. split; [reflexivity | constructor].
    + intros (cfg & ls & (before & after & Heq & Hord) & Hcfg).
      destruct before as [|c before]; simpl in Heq; injection Heq as -> ->.
      * apply in_order_nil_inv in Hord as <-. rewrite Hcfg.
        destruct r as [[ls1|]|p]; [destruct Hr | reflexivity | reflexivity].
      * apply in_order_cons_inv in Hord as (ls1 & E & Hrest). rewrite E.
        apply IH. exists cfg, ls. split; [|exact Hcfg].
        exists before, after. split; [reflexivity | exact Hrest].
Qed.

(** C2.  [Process] applies the rules in order, the output of a rule being
    the input of the next one.  It returns a label set exactly when every
    rule returns one, and then the label set of the last rule; it returns
    nil exactly when some rule that is reached returns nil, whatever the
    rules after it are; and it panics exactly when a rule that is reached
    panics. *)
Theorem Process_applies_rules_in_order (labels : Labels) (cfgs : list RelabelConfig) :
  (forall ls', Process labels cfgs = Done (Some ls') <-> in_order labels cfgs ls')
  /\ (Process labels cfgs = Done None <->
      exists cfg ls, reaches labels cfgs cfg ls /\ relabel ls cfg = Done None)
  /\ (forall p, Process labels cfgs = Panicked p <->
      exists cfg ls, reaches labels cfgs cfg ls /\ relabel ls cfg = Panicked p).
Proof.
  split; [|split].
  - intros ls'. apply Process_Some_in_order.
  - apply Process_ends_loop. exact I.
  - intros p. apply Process_ends_loop. exact I.
Qed.

(** ** [relabel]: the regexp of the rule, and the loops *)

Lemma checkout_cases (cfg : RelabelConfig) :
  checkout cfg = Panicked NilPooledRegexp \/ exists regex, checkout cfg = Done regex.
Proof.
  unfold checkout. destruct (Initialized (Regex cfg)).
  - destruct (Pool_Get (Regex cfg)) as [re|]; [right; exists (Some re) | left]; reflexivity.
  - right. exists None. reflexivity.
Qed.

Lemma checkout_non_null (cfg : RelabelConfig) :
  non_null (Regex cfg) = true -> exists re, checkout cfg = Done (Some re).
Proof.
  unfold non_null, checkout. intros H. apply andb_true_iff in H as [-> H].
  apply bool_decide_eq_true in H as [re ->]. exists re. reflexivity.
Qed.

Lemma len_0_empty (s : string) : (len s =? 0)%Z = true <-> s = "".
Proof.
  unfold len. destruct s as [|c s].
  - split; reflexivity.
  - split; [|discriminate]. intros H. apply Z.eqb_eq in H.
    simpl String.length in H. lia.
Qed.

Lemma FullMatch_MatchString (re : regexp.Regexp) (s : string) :
  FullMatch re s = true -> MatchString re s = true.
Proof.
  unfold FullMatch. rewrite MatchString_Find.
  destruct (FindStringSubmatchIndex re s) as [loc|]; [|discriminate].
  intros _. apply bool_decide_eq_true. exists loc. reflexivity.
Qed.

Lemma Anchored_FullMatch (re : regexp.Regexp) (s : string) :
  Anchored re -> FullMatch re s = MatchString re s.
Proof.
  intros Hre. destruct (MatchString re s) eqn:E.
  - apply Hre, E.
  - destruct (FullMatch re s) eqn:F; [|reflexivity].
    apply FullMatch_MatchString in F. congruence.
Qed.

(** ** Loops and panics *)

Lemma exec_bind_returns {A B : Type} (m : exec A) (f : A -> exec B) :
  (exists a, m = Done a) -> (forall a, exists b, f a = Done b) ->
  exists b, (m ≫= f) = Done b.
Proof. intros [a ->] Hf. apply Hf. Qed.

Lemma exec_bind_avoids {A B : Type} (m : exec A) (f : A -> exec B) (p : panic) :
  m <> Panicked p -> (forall a, f a <> Panicked p) -> (m ≫= f) <> Panicked p.
Proof.
  intros Hm Hf. destruct m as [a|q]; [apply Hf|].
  intros H. injection H as ->. apply Hm. reflexivity.
Qed.

(** A loop whose body returns, returns. *)
Lemma for_range_returns {A B : Type} (body : B -> A -> exec B) (xs : list A) (acc : B) :
  (forall b a, exists b', body b a = Done b') ->
  exists r, for_range body xs acc = Done r.
Proof.
  intros Hbody. revert acc. induction xs as [|x xs IH]; intros acc; simpl.
  - exists acc. reflexivity.
  - destruct (Hbody acc x) as [b' ->]. apply IH.
Qed.

(** A loop panics as its body does. *)
Lemma for_range_avoids {A B : Type} (body : B -> A -> exec B) (xs : list A) (acc : B)
  (p : panic) :
  (forall b a, body b a <> Panicked p) -> for_range body xs acc <> Panicked p.
Proof.
  intros Hbody. revert acc. induction xs as [|x xs IH]; intros acc; simpl.
  - discriminate.
  - apply exec_bind_avoids; [apply Hbody | intros b; apply IH].
Qed.

Lemma deref_avoids (regex : option regexp.Regexp) (a : string) :
  deref regex <> Panicked (UnknownAction a).
Proof. destruct regex; discriminate. Qed.

(** ** Drop and Keep *)

Lemma relabel_Drop (lset : Labels) (cfg : RelabelConfig) (re : regexp.Regexp) :
  Action cfg = RelabelDrop ->
  checkout cfg = Done (Some re) ->
  relabel lset cfg =
  if MatchString re (probe lset cfg) then Done None else Done (Some lset).
Proof. intros Ha Hre. unfold relabel. rewrite Hre, Ha. reflexivity. Qed.

Lemma relabel_Keep (lset : Labels) (cfg : RelabelConfig) (re : regexp.Regexp) :
  Action cfg = RelabelKeep ->
  checkout cfg = Done (Some re) ->
  relabel lset cfg =
  if MatchString re (probe lset cfg) then Done (Some lset) else Done None.
Proof.
  intros Ha Hre. unfold relabel. rewrite Hre, Ha. simpl.
  destruct (MatchString re (probe lset cfg)); reflexivity.
Qed.

(** C3, as amended.  With the regexp [re] of the rule, [relabel] with action
    Drop returns nil exactly when [re.MatchString] holds of the probe
    string, that is when [re] matches somewhere in it, and with action Keep
    exactly when it does not hold.  [relabel] does not anchor [re]; when
    [re] is anchored, this is the same as a match of the whole probe
    string. *)
Theorem relabel_Drop_Keep_MatchString (lset : Labels) (cfg : RelabelConfig)
  (re : regexp.Regexp) :
  checkout cfg = Done (Some re) ->
  (Action cfg = RelabelDrop ->
     (relabel lset cfg = Done None <-> MatchString re (probe lset cfg) = true)
     /\ (Anchored re ->
         (relabel lset cfg = Done None <-> FullMatch re (probe lset cfg) = true)))
  /\ (Action cfg = RelabelKeep ->
     (relabel lset cfg = Done None <-> MatchString re (probe lset cfg) = false)
     /\ (Anchored re ->
         (relabel lset cfg = Done None <-> FullMatch re (probe lset cfg) = false))).
Proof.
  intros Hre. split; intros Ha.
  - assert (Hm : relabel lset cfg = Done None <-> MatchString re (probe lset cfg) = true).
    { rewrite (relabel_Drop lset cfg re Ha Hre).
      destruct (MatchString re (probe lset cfg)); split; congruence. }
    split; [exact Hm|]. intros Hanch. rewrite (Anchored_FullMatch re _ Hanch). exact Hm.
  - assert (Hm : relabel lset cfg = Done None <-> MatchString re (probe lset cfg) = false).
    { rewrite (relabel_Keep lset cfg re Ha Hre).
      destruct (MatchString re (probe lset cfg)); split; congruence. }
    split; [exact Hm|]. intros Hanch. rewrite (Anchored_FullMatch re _ Hanch). exact Hm.
Qed.

(** C10.  A rule with action Drop or Keep that does not return nil returns
    the label set it was given: no label is added, deleted or modified.  With
    its regexp at hand the rule does return, nil or that label set. *)
Theorem relabel_Drop_Keep_returns_input (lset : Labels) (cfg : RelabelConfig) :
  Action cfg = RelabelDrop \/ Action cfg = RelabelKeep ->
  (forall ls', relabel lset cfg = Done (Some ls') -> ls' = lset)
  /\ (forall re, checkout cfg = Done (Some re) ->
      relabel lset cfg = Done None \/ relabel lset cfg = Done (Some lset)).
Proof.
  intros Ha. split.
  - intros ls' H. unfold relabel in H.
    apply exec_bind_inv in H as (regex & _ & H).
    destruct Ha as [Ha|Ha]; rewrite Ha in H;
      apply exec_bind_inv in H as (re & _ & H).
    + destruct (MatchString re (probe lset cfg)); [discriminate H|].
      injection H as <-. reflexivity.
    + destruct (negb (MatchString re (probe lset cfg))); [discriminate H|].
      injection H as <-. reflexivity.
  - intros re Hre. destruct Ha as [Ha|Ha].
    + rewrite (relabel_Drop lset cfg re Ha Hre).
      destruct (MatchString re (probe lset cfg)); [left | right]; reflexivity.
    + rewrite (relabel_Keep lset cfg re Ha Hre).
      destruct (MatchString re (probe lset cfg)); [right | left]; reflexivity.
Qed.

(** ** Replace *)

(** C4.  A rule with action Replace whose regexp has no match in the probe
    string returns the label set unchanged.  Otherwise, with [N] the target
    label expanded against the first match and [R] the replacement expanded
    against it: when [N] is no valid label name the target label is deleted;
    when it is one and [R] is empty the target label is deleted; and else
    the label [N] is set to [R]. *)
Theorem relabel_Replace (lset : Labels) (cfg : RelabelConfig) (re : regexp.Regexp) :
  Action cfg = RelabelReplace ->
  checkout cfg = Done (Some re) ->
  (FindStringSubmatchIndex re (probe lset cfg) = None ->
     relabel lset cfg = Done (Some lset))
  /\ (forall loc, FindStringSubmatchIndex re (probe lset cfg) = Some loc ->
      let N := ExpandString re "" (TargetLabel cfg) (probe lset cfg) loc in
      let R := ExpandString re "" (Replacement cfg) (probe lset cfg) loc in
      (IsValid N = false ->
         relabel lset cfg = Done (Some (delete (TargetLabel cfg) lset)))
      /\ (IsValid N = true -> R = "" ->
          relabel lset cfg = Done (Some (delete (TargetLabel cfg) lset)))
      /\ (IsValid N = true -> R <> "" ->
          relabel lset cfg = Done (Some (<[N := R]> lset)))).
Proof.
  intros Ha Hre. unfold relabel. rewrite Hre, Ha. simpl. split.
  - intros ->. reflexivity.
  - intros loc ->. repeat split.
    + intros ->. reflexivity.
    + intros -> HR. simpl. apply len_0_empty in HR. rewrite HR. reflexivity.
    + intros -> HR. simpl. destruct (len _ =? 0)%Z eqn:E; [|reflexivity].
      apply len_0_empty in E. contradiction.
Qed.

(** C7, as amended.  A rule with action Replace and the empty replacement
    deletes the target label, as [Del] of the builder does, from every label
    set in whose probe string the regexp of the rule has a match; the other
    label sets are returned unchanged. *)
Theorem relabel_Replace_empty_replacement (lset : Labels) (cfg : RelabelConfig)
  (re : regexp.Regexp) :
  Action cfg = RelabelReplace ->
  checkout cfg = Done (Some re) ->
  Replacement cfg = "" ->
  relabel lset cfg =
  Done (Some (if MatchString re (probe lset cfg)
              then Builder.Labels (Builder.Del (NewBuilder lset) (TargetLabel cfg))
              else lset)).
Proof.
  intros Ha Hre Hrepl. unfold relabel. rewrite Hre, Ha, Hrepl. simpl.
  rewrite MatchString_Find.
  destruct (FindStringSubmatchIndex re (probe lset cfg)) as [loc|] eqn:E.
  - rewrite bool_decide_eq_true_2 by (exists loc; reflexivity).
    rewrite ExpandString_empty. simpl.
    destruct (IsValid _); reflexivity.
  - rewrite bool_decide_eq_false_2 by (intros [? ?]; discriminate). reflexivity.
Qed.

(** ** Panics *)

Lemma relabel_checkout_panics (lset : Labels) (cfg : RelabelConfig) (p : panic) :
  checkout cfg = Panicked p -> relabel lset cfg = Panicked p.
Proof. intros H. unfold relabel. rewrite H. reflexivity. Qed.

Lemma relabel_unknown_action (lset : Labels) (cfg : RelabelConfig)
  (regex : option regexp.Regexp) (a : string) :
  Action cfg = RelabelOther a ->
  checkout cfg = Done regex ->
  relabel lset cfg = Panicked (UnknownAction a).
Proof. intros Ha H. unfold relabel. rewrite H, Ha. reflexivity. Qed.

(** The loops of LabelMap, LabelDrop and LabelKeep: their body derefs the
    regexp and then tests the name of the label. *)
Ltac loop_avoids :=
  apply exec_bind_avoids; [|discriminate];
  apply for_range_avoids; intros ? ?;
  apply exec_bind_avoids; [apply deref_avoids | intros ?];
  match goal with |- context [if ?c then _ else _] => destruct c end;
  discriminate.

Ltac loop_returns :=
  apply exec_bind_returns; [|intros ?; eexists; reflexivity];
  apply for_range_returns; intros ? ?; simpl;
  match goal with |- context [if ?c then _ else _] => destruct c end;
  eexists; reflexivity.

(** Only the default branch of the switch panics with [UnknownAction]. *)
Lemma relabel_known_action (lset : Labels) (cfg : RelabelConfig) (a : string) :
  known (Action cfg) = true ->
  relabel lset cfg <> Panicked (UnknownAction a).
Proof.
  intros Hk. unfold relabel.
  apply exec_bind_avoids.
  { destruct (checkout_cases cfg) as [-> | [regex ->]]; discriminate. }
  intros regex.
  destruct (Action cfg) eqn:Ha; try discriminate Hk;
    try (apply exec_bind_avoids; [apply deref_avoids | intros re]).
  - destruct (FindStringSubmatchIndex re _); [|discriminate].
    destruct (negb _); [discriminate|]. destruct (_ =? _)%Z; discriminate.
  - destruct (negb _); discriminate.
  - destruct (MatchString _ _); discriminate.
  - destruct (_ =? _)%N; discriminate.
  - loop_avoids.
  - loop_avoids.
  - loop_avoids.
Qed.

(** A validated rule returns, on every label set. *)
Lemma relabel_validated (lset : Labels) (cfg : RelabelConfig) :
  validated cfg = true -> exists r, relabel lset cfg = Done r.
Proof.
  unfold validated. intros Hv. unfold relabel.
  destruct (Action cfg) eqn:Ha; try discriminate Hv;
    try (destruct (checkout_non_null cfg Hv) as [re0 ->];
         rewrite exec_bind_Done; cbv beta).
  - simpl. destruct (FindStringSubmatchIndex re0 _); [|eexists; reflexivity].
    destruct (negb _); [eexists; reflexivity|].
    destruct (_ =? _)%Z; eexists; reflexivity.
  - simpl. destruct (negb _); eexists; reflexivity.
  - simpl. destruct (MatchString _ _); eexists; reflexivity.
  - apply andb_true_iff in Hv as [Hm Hre].
    assert (exists regex, checkout cfg = Done regex) as [regex ->].
    { apply orb_true_iff in Hre as [Hre|Hre].
      - unfold checkout. apply negb_true_iff in Hre. rewrite Hre.
        exists None. reflexivity.
      - destruct (checkout_non_null cfg Hre) as [re ->]. exists (Some re). reflexivity. }
    simpl. apply N.ltb_lt in Hm.
    destruct (Modulus cfg =? 0)%N eqn:E; [apply N.eqb_eq in E; lia|].
    eexists; reflexivity.
  - loop_returns.
  - loop_returns.
  - loop_returns.
Qed.

(** C9.  [relabel] panics on a rule whose action is none of the seven, with
    [UnknownAction] once the regexp of the rule is taken from its pool.  On
    a rule with one of the seven actions the default branch is not reached.
    And a validated rule makes [relabel] return on every label set: no
    label set makes it panic. *)
Theorem relabel_panics_on_unknown_action_only (lset : Labels) (cfg : RelabelConfig) :
  (known (Action cfg) = false ->
     (exists p, relabel lset cfg = Panicked p)
     /\ (forall regex a, checkout cfg = Done regex -> Action cfg = RelabelOther a ->
         relabel lset cfg = Panicked (UnknownAction a)))
  /\ (known (Action cfg) = true ->
      forall a, relabel lset cfg <> Panicked (UnknownAction a))
  /\ (validated cfg = true -> exists r, relabel lset cfg = Done r).
Proof.
  split; [|split].
  - intros Hk. split.
    + destruct (Action cfg) as [| | | | | | |a] eqn:Ha; try discriminate Hk.
      destruct (checkout_cases cfg) as [Hc | [regex Hc]].
      * exists NilPooledRegexp. apply relabel_checkout_panics, Hc.
      * exists (UnknownAction a). apply relabel_unknown_action with regex; assumption.
    + intros regex a Hc Ha. apply relabel_unknown_action with regex; assumption.
  - intros Hk a. apply relabel_known_action, Hk.
  - apply relabel_validated.
Qed.

(** ** [sum64] and HashMod *)

Lemma lor_disjoint (h b n : N) :
  (b < 2 ^ n)%N -> N.lor (h * 2 ^ n) b = (h * 2 ^ n + b)%N.
Proof.
  intros Hb.
  assert (Hland : N.land (h * 2 ^ n) b = 0%N).
  { apply N.bits_inj. intros i. rewrite N.land_spec, N.bits_0.
    destruct (N.lt_ge_cases i n) as [Hi|Hi].
    - rewrite N.mul_pow2_bits_low by exact Hi. reflexivity.
    - rewrite <- (N.mod_small b (2 ^ n)) by exact Hb.
      rewrite N.mod_pow2_bits_high by exact Hi. apply andb_false_r. }
  rewrite (N.add_nocarry_lxor _ _ Hland). symmetry. apply N.lxor_lor, Hland.
Qed.

Lemma uint64_small (z : Z) : (0 <= z < 2 ^ 64)%Z -> uint64 z = Z.to_N z.
Proof.
  intros H. unfold uint64. change (Z.of_N two64) with (2 ^ 64)%Z.
  rewrite Z.mod_small by exact H. reflexivity.
Qed.

Lemma shl64_high (x s : N) : (64 <= s)%N -> shl64 x s = 0%N.
Proof. intros H. unfold shl64. apply N.leb_le in H. rewrite H. reflexivity. Qed.

Lemma shl64_byte (b : byte) (s : N) :
  (s <= 56)%N -> shl64 (uint64_of_byte b) s = (Byte.to_N b * 2 ^ s)%N.
Proof.
  intros H. unfold shl64, uint64_of_byte.
  destruct (64 <=? s)%N eqn:E; [apply N.leb_le in E; lia|].
  rewrite N.shiftl_mul_pow2. apply N.mod_small.
  pose proof (to_N_bounded b) as Hb.
  apply N.lt_le_trans with (256 * 2 ^ s)%N.
  - apply N.mul_lt_mono_pos_r; [|lia]. apply N.neq_0_lt_0, N.pow_nonzero. lia.
  - change two64 with (256 * 2 ^ 56)%N. apply N.mul_le_mono_l.
    apply N.pow_le_mono_r; lia.
Qed.

(** The bytes 0 to 7 are shifted by 64 bits or more: they leave the sum as
    it is. *)
Lemma sum64_high (bs : list byte) (i : nat) (s : N) :
  (i + length bs <= 8)%nat ->
  fold_left sum64_step (combine (seq i (length bs)) bs) s = s.
Proof.
  revert i s. induction bs as [|b bs IH]; intros i s Hlen; simpl in *.
  - reflexivity.
  - rewrite IH by lia. unfold sum64_step. cbn [fst snd].
    rewrite uint64_small by (unfold md5.Size; lia).
    rewrite shl64_high; [apply N.lor_0_r|]. unfold md5.Size. lia.
Qed.

(** The bytes 8 to 15 are the digits in base 256 of the sum. *)
Lemma sum64_low (bs : list byte) (i : nat) (h : N) :
  (8 <= i)%nat -> (i + length bs = 16)%nat ->
  fold_left sum64_step (combine (seq i (length bs)) bs)
    (h * 2 ^ (8 * N.of_nat (length bs)))%N
  = fold_left (fun n b => (n * 256 + Byte.to_N b)%N) bs h.
Proof.
  revert i h. induction bs as [|b bs IH]; intros i h Hi Hlen; simpl length in *.
  - simpl. rewrite N.mul_1_r. reflexivity.
  - cbn [seq combine fold_left]. rewrite <- (IH (S i)) by lia. f_equal.
    unfold sum64_step. cbn [fst snd].
    rewrite uint64_small by (unfold md5.Size; lia).
    replace (Z.to_N ((Z.of_nat md5.Size - Z.of_nat i - 1) * 8))
      with (8 * N.of_nat (length bs))%N by (unfold md5.Size; lia).
    rewrite shl64_byte by lia.
    replace (8 * N.of_nat (S (length bs)))%N
      with (8 + 8 * N.of_nat (length bs))%N by lia.
    unfold or64. pose proof (to_N_bounded b) as Hb.
    rewrite lor_disjoint.
    + rewrite N.pow_add_r. change (2 ^ 8)%N with 256%N. ring.
    + rewrite N.pow_add_r. change (2 ^ 8)%N with 256%N.
      apply N.mul_lt_mono_pos_r; [|lia].
      apply N.neq_0_lt_0, N.pow_nonzero. lia.
Qed.

Lemma combine_app {A B : Type} (l1 l2 : list A) (k1 k2 : list B) :
  length l1 = length k1 ->
  combine (l1 ++ l2) (k1 ++ k2) = (combine l1 k1 ++ combine l2 k2)%list.
Proof.
  revert k1. induction l1 as [|a l1 IH]; intros [|b k1] Hlen; try discriminate Hlen.
  - reflexivity.
  - simpl. f_equal. apply IH. injection Hlen as Hlen. exact Hlen.
Qed.

(** [sum64] is the number that the bytes 8 to 15 of the checksum, its last
    8 bytes, denote in big-endian order. *)
Lemma sum64_last_8_bytes (hash : vec byte md5.Size) :
  sum64 hash = big_endian (drop 8 (vec_to_list hash)).
Proof.
  unfold sum64, indexed. fold sum64_step.
  pose proof (length_vec_to_list hash) as Hlen.
  rewrite <- (take_drop 8 (vec_to_list hash)) at 1 2.
  rewrite length_app.
  assert (H8 : length (take 8 (vec_to_list hash)) = 8%nat)
    by (rewrite length_take, Hlen; reflexivity).
  assert (H8' : length (drop 8 (vec_to_list hash)) = 8%nat)
    by (rewrite length_drop, Hlen; reflexivity).
  rewrite seq_app, combine_app by (rewrite length_seq; reflexivity).
  rewrite fold_left_app, (sum64_high (take 8 (vec_to_list hash)) 0) by lia.
  rewrite H8. simpl Nat.add.
  change 0%N with (0 * 2 ^ (8 * N.of_nat (length (drop 8 (vec_to_list hash)))))%N at 1.
  apply sum64_low; lia.
Qed.

Lemma sum64_lt_two64 (hash : vec byte md5.Size) : (sum64 hash < two64)%N.
Proof.
  rewrite sum64_last_8_bytes.
  pose proof (length_vec_to_list hash) as Hlen.
  assert (H8 : length (drop 8 (vec_to_list hash)) = 8%nat)
    by (rewrite length_drop, Hlen; reflexivity).
  destruct (drop 8 (vec_to_list hash)) as [|b0 [|b1 [|b2 [|b3 [|b4 [|b5 [|b6 [|b7 [|]]]]]]]]];
    try discriminate H8.
  unfold big_endian, two64. cbn [fold_left].
  pose proof (to_N_bounded b0). pose proof (to_N_bounded b1).
  pose proof (to_N_bounded b2). pose proof (to_N_bounded b3).
  pose proof (to_N_bounded b4). pose proof (to_N_bounded b5).
  pose proof (to_N_bounded b6). pose proof (to_N_bounded b7).
  change (2 ^ 64)%N with 18446744073709551616%N. lia.
Qed.

Lemma relabel_HashMod_returns (lset : Labels) (cfg : RelabelConfig)
  (regex : option regexp.Regexp) :
  Action cfg = RelabelHashMod ->
  checkout cfg = Done regex ->
  Modulus cfg <> 0%N ->
  relabel lset cfg =
  Done (Some (<[TargetLabel cfg :=
                FormatUint (sum64 (md5_Sum (probe lset cfg)) mod Modulus cfg)]> lset)).
Proof.
  intros Ha Hre Hm. unfold relabel. rewrite Hre, Ha, exec_bind_Done.
  apply N.eqb_neq in Hm. rewrite Hm. reflexivity.
Qed.

(** C5, as amended.  A rule with action HashMod takes for its 64-bit digest
    the last 8 bytes of the MD5 checksum of the probe string (the bytes 8 to
    15), read in big-endian order, takes the digest modulo the modulus of
    the rule, and sets the target label to the result in decimal. *)
Theorem relabel_HashMod_last_8_bytes (lset : Labels) (cfg : RelabelConfig)
  (regex : option regexp.Regexp) :
  Action cfg = RelabelHashMod ->
  checkout cfg = Done regex ->
  Modulus cfg <> 0%N ->
  let digest := big_endian (drop 8 (vec_to_list (md5_Sum (probe lset cfg)))) in
  sum64 (md5_Sum (probe lset cfg)) = digest
  /\ relabel lset cfg =
     Done (Some (<[TargetLabel cfg := FormatUint (digest mod Modulus cfg)]> lset)).
Proof.
  intros Ha Hre Hm digest. subst digest. split.
  - apply sum64_last_8_bytes.
  - rewrite <- sum64_last_8_bytes. apply relabel_HashMod_returns with regex; assumption.
Qed.

Lemma to_uint_nonnil (n : N) : N.to_uint n <> Decimal.Nil.
Proof.
  destruct n as [|p]; [discriminate|]. simpl.
  apply DecimalPos.Unsigned.to_uint_nonnil.
Qed.

(** The decimal form of a number denotes that number. *)
Lemma decimal_value_FormatUint (n : N) : decimal_value (FormatUint n) = Some n.
Proof.
  unfold decimal_value, FormatUint.
  rewrite NilZero.usu by apply to_uint_nonnil.
  simpl. f_equal. apply DecimalN.Unsigned.of_to.
Qed.

(** C6.  A rule with action HashMod and a modulus greater than 0 writes to
    the target label, on every label set, the decimal form of a number of
    the interval from 0 to the modulus, the modulus excluded: that is what
    the label set holds whenever the rule returns, and the rule returns a
    label set unless its pool gives the nil regexp. *)
Theorem relabel_HashMod_range (lset : Labels) (cfg : RelabelConfig) :
  Action cfg = RelabelHashMod ->
  (0 < Modulus cfg)%N ->
  (forall regex, checkout cfg = Done regex ->
     exists ls', relabel lset cfg = Done (Some ls'))
  /\ (forall r, relabel lset cfg = Done r ->
      exists (ls' : Labels) (m : N),
        r = Some ls'
        /\ ls' !! TargetLabel cfg = Some (FormatUint m)
        /\ decimal_value (Get ls' (TargetLabel cfg)) = Some m
        /\ (0 <= m < Modulus cfg)%N).
Proof.
  intros Ha Hm.
  assert (Hret : forall regex, checkout cfg = Done regex ->
            relabel lset cfg =
            Done (Some (<[TargetLabel cfg :=
                          FormatUint (sum64 (md5_Sum (probe lset cfg)) mod Modulus cfg)]>
                          lset))).
  { intros regex Hre. apply relabel_HashMod_returns with regex; [assumption..|lia]. }
  split.
  - intros regex Hre. rewrite (Hret regex Hre). eexists. reflexivity.
  - intros r Hr. destruct (checkout_cases cfg) as [Hc | [regex Hc]].
    + rewrite (relabel_checkout_panics lset cfg _ Hc) in Hr. discriminate Hr.
    + rewrite (Hret regex Hc) in Hr. injection Hr as <-.
      eexists. exists (sum64 (md5_Sum (probe lset cfg)) mod Modulus cfg)%N.
      split; [reflexivity|]. split; [apply lookup_insert_eq|]. split.
      * unfold Get. rewrite lookup_insert_eq. simpl. apply decimal_value_FormatUint.
      * split; [apply N.le_0_l|]. apply N.mod_lt. lia.
Qed.

(** ** LabelKeep *)

Lemma elem_of_range (ls : Labels) (l : Label) :
  l ∈ range ls <-> ls !! Name l = Some (Value l).
Proof.
  unfold range. rewrite list_elem_of_fmap. split.
  - intros ([k v] & -> & H). rewrite merge_sort_Permutation in H.
    apply elem_of_map_to_list in H. exact H.
  - intros H. exists (Name l, Value l). split; [destruct l; reflexivity|].
    rewrite merge_sort_Permutation. apply elem_of_map_to_list. exact H.
Qed.

(** What the loop of LabelKeep leaves of a label: nothing when its name is
    among the names met and the regexp does not match it. *)
Lemma keep_step_lookup (re : regexp.Regexp) (ls : list Label) (lb : Builder.t)
  (k : string) :
  Builder.Labels (fold_left (keep_step re) ls lb) !! k =
  if negb (MatchString re k) && bool_decide (k ∈ map Name ls) then None
  else Builder.Labels lb !! k.
Proof.
  revert lb. induction ls as [|l ls IH]; intros lb.
  - simpl. rewrite andb_false_r. reflexivity.
  - cbn [fold_left map]. rewrite IH. unfold keep_step.
    destruct (decide (k = Name l)) as [->|Hne].
    + rewrite (bool_decide_eq_true_2 (Name l ∈ Name l :: map Name ls)) by (left).
      rewrite andb_true_r.
      destruct (negb (MatchString re (Name l))) eqn:E; simpl.
      * destruct (bool_decide _); [reflexivity|]. apply lookup_delete_eq.
      * reflexivity.
    + assert (Hd : bool_decide (k ∈ Name l :: map Name ls)
                   = bool_decide (k ∈ map Name ls)).
      { apply bool_decide_ext. rewrite elem_of_cons. tauto. }
      rewrite Hd. destruct (negb (MatchString re (Name l))); [|reflexivity].
      unfold Builder.Del, Builder.Labels. cbn [Builder.current].
      rewrite lookup_delete_ne by congruence. reflexivity.
Qed.

Lemma keep_step_filter (re : regexp.Regexp) (lset : Labels) :
  Builder.Labels (fold_left (keep_step re) (range lset) (NewBuilder lset))
  = filter (fun kv => MatchString re kv.1 = true) lset.
Proof.
  apply map_eq. intros k. rewrite keep_step_lookup.
  unfold NewBuilder, Builder.Labels. cbn [Builder.current].
  apply option_eq. intros v. rewrite map_lookup_filter_Some. cbn [fst].
  destruct (MatchString re k) eqn:E; simpl.
  - tauto.
  - destruct (bool_decide (k ∈ map Name (range lset))) eqn:D.
    + split; [discriminate | intros [_ H]; discriminate H].
    + split; [|intros [_ H]; discriminate H]. intros H.
      apply bool_decide_eq_false in D. exfalso. apply D.
      apply list_elem_of_fmap. exists {| Name := k; Value := v |}.
      split; [reflexivity|]. apply elem_of_range. exact H.
Qed.

(** With the regexp [re], action LabelKeep returns the labels whose names
    [re] matches. *)
Lemma relabel_LabelKeep (lset : Labels) (cfg : RelabelConfig) (re : regexp.Regexp) :
  Action cfg = RelabelLabelKeep ->
  checkout cfg = Done (Some re) ->
  relabel lset cfg = Done (Some (filter (fun kv => MatchString re kv.1 = true) lset)).
Proof.
  intros Ha Hre. unfold relabel. rewrite Hre, Ha, exec_bind_Done.
  rewrite (for_range_ext _ (fun lb l => Done (keep_step re lb l))).
  - rewrite for_range_pure, exec_bind_Done, keep_step_filter. reflexivity.
  - intros lb l. unfold keep_step. simpl. destruct (negb _); reflexivity.
Qed.

(** With the nil regexp, it panics unless there is no label. *)
Lemma relabel_LabelKeep_nil (lset : Labels) (cfg : RelabelConfig) :
  Action cfg = RelabelLabelKeep ->
  checkout cfg = Done None ->
  relabel lset cfg =
  match range lset with [] => Done (Some lset) | _ :: _ => Panicked NilDereference end.
Proof.
  intros Ha Hre. unfold relabel. rewrite Hre, Ha, exec_bind_Done.
  destruct (range lset); reflexivity.
Qed.

Lemma Process_one (lset : Labels) (cfg : RelabelConfig) :
  Process lset [cfg] = relabel lset cfg.
Proof. simpl. destruct (relabel lset cfg) as [[ls|]|p]; reflexivity. Qed.

(** C8.  LabelKeep is idempotent: a rule with action LabelKeep applied twice
    in succession gives what it gives applied once, on every label set and
    with every regexp. *)
Theorem LabelKeep_idempotent (lset : Labels) (cfg : RelabelConfig) :
  Action cfg = RelabelLabelKeep ->
  Process lset [cfg; cfg] = Process lset [cfg].
Proof.
  intros Ha. rewrite Process_cons, !Process_one.
  destruct (checkout_cases cfg) as [Hc | [[re|] Hc]].
  - rewrite (relabel_checkout_panics lset cfg _ Hc). reflexivity.
  - rewrite (relabel_LabelKeep lset cfg re Ha Hc).
    rewrite Process_one, (relabel_LabelKeep _ cfg re Ha Hc).
    rewrite map_filter_id; [reflexivity|].
    intros k v H. apply map_lookup_filter_Some in H. apply H.
  - rewrite (relabel_LabelKeep_nil lset cfg Ha Hc).
    destruct (range lset) eqn:E; [|reflexivity].
    rewrite Process_one, (relabel_LabelKeep_nil lset cfg Ha Hc), E. reflexivity.
Qed.

(** ** Panics, rule by rule *)

Lemma range_nil (lset : Labels) : range lset = [] <-> lset = ∅.
Proof.
  unfold range. split.
  - intros H. apply fmap_nil_inv in H.
    apply map_to_list_empty_iff. apply Permutation_nil_r.
    rewrite <- H. symmetry. apply merge_sort_Permutation.
  - intros ->. rewrite map_to_list_empty. reflexivity.
Qed.

Lemma checkout_Initialized (cfg : RelabelConfig) :
  checkout cfg =
  if Initialized (Regex cfg) then
    match Pool_Get (Regex cfg) with
    | Some re => Done (Some re)
    | None => Panicked NilPooledRegexp
    end
  else Done None.
Proof. reflexivity. Qed.

Ltac loop_with_regexp :=
  match goal with
  | |- exists r, (for_range ?body ?xs ?acc ≫= _) = Done r =>
      destruct (for_range_returns body xs acc) as [lb' ->];
      [intros ? ?; simpl;
       match goal with |- context [if ?c then _ else _] => destruct c end;
       eexists; reflexivity
      | eexists; reflexivity]
  end.

Ltac loop_without_regexp lset :=
  destruct (range lset) as [|l ls] eqn:E;
  [apply range_nil in E; subst lset;
   rewrite bool_decide_eq_true_2 by reflexivity; simpl; eexists; reflexivity
  | assert (lset <> ∅) as Hne
      by (intros Hempty; apply range_nil in Hempty; congruence);
    rewrite bool_decide_eq_false_2 by exact Hne; reflexivity].

(** X1.  The panics of [relabel], all of them: an initialized regexp whose
    pool yields nil panics first, whatever the action; a rule whose regexp
    was never set panics on the nil regexp for Drop, Keep and Replace, and
    for LabelMap, LabelDrop and LabelKeep as soon as the label set has a
    label to test; HashMod never looks at the regexp and panics on modulus
    0; any other action reaches the default branch.  In every other case
    [relabel] returns. *)
Theorem relabel_panic_of (lset : Labels) (cfg : RelabelConfig) :
  match panic_of lset cfg with
  | Some p => relabel lset cfg = Panicked p
  | None => exists r, relabel lset cfg = Done r
  end.
Proof.
  unfold panic_of, relabel. rewrite checkout_Initialized.
  destruct (Initialized (Regex cfg)); simpl.
  - destruct (Pool_Get (Regex cfg)) as [re|]; simpl.
    + try rewrite bool_decide_eq_true_2 by (exists re; reflexivity). simpl.
      destruct (Action cfg).
      * destruct (FindStringSubmatchIndex re _); [|eexists; reflexivity].
        destruct (negb _); [eexists; reflexivity|].
        destruct (_ =? _)%Z; eexists; reflexivity.
      * destruct (negb _); eexists; reflexivity.
      * destruct (MatchString _ _); eexists; reflexivity.
      * destruct (_ =? _)%N; [reflexivity | eexists; reflexivity].
      * loop_with_regexp.
      * loop_with_regexp.
      * loop_with_regexp.
      * reflexivity.
    + try rewrite bool_decide_eq_false_2 by (intros [? ?]; discriminate). reflexivity.
  - destruct (Action cfg); try reflexivity.
    + destruct (_ =? _)%N; [reflexivity | eexists; reflexivity].
    + loop_without_regexp lset.
    + loop_without_regexp lset.
    + loop_without_regexp lset.
Qed.

(** ** LabelDrop and LabelKeep *)

Lemma drop_step_lookup (re : regexp.Regexp) (ls : list Label) (lb : Builder.t)
  (k : string) :
  Builder.Labels (fold_left (drop_step re) ls lb) !! k =
  if MatchString re k && bool_decide (k ∈ map Name ls) then None
  else Builder.Labels lb !! k.
Proof.
  revert lb. induction ls as [|l ls IH]; intros lb.
  - simpl. rewrite andb_false_r. reflexivity.
  - cbn [fold_left map]. rewrite IH. unfold drop_step.
    destruct (decide (k = Name l)) as [->|Hne].
    + rewrite (bool_decide_eq_true_2 (Name l ∈ Name l :: map Name ls)) by (left).
      rewrite andb_true_r.
      destruct (MatchString re (Name l)) eqn:E; simpl; [|reflexivity].
      destruct (bool_decide _); [reflexivity|]. apply lookup_delete_eq.
    + assert (Hd : bool_decide (k ∈ Name l :: map Name ls)
                   = bool_decide (k ∈ map Name ls)).
      { apply bool_decide_ext. rewrite elem_of_cons. tauto. }
      rewrite Hd. destruct (MatchString re (Name l)); [|reflexivity].
      unfold Builder.Del, Builder.Labels. cbn [Builder.current].
      rewrite lookup_delete_ne by congruence. reflexivity.
Qed.

Lemma name_in_range (lset : Labels) (k v : string) :
  lset !! k = Some v -> k ∈ map Name (range lset).
Proof.
  intros H. apply list_elem_of_fmap. exists {| Name := k; Value := v |}.
  split; [reflexivity|]. apply elem_of_range. exact H.
Qed.

Lemma relabel_LabelDrop (lset : Labels) (cfg : RelabelConfig) (re : regexp.Regexp) :
  Action cfg = RelabelLabelDrop ->
  checkout cfg = Done (Some re) ->
  relabel lset cfg = Done (Some (filter (fun kv => MatchString re kv.1 = false) lset)).
Proof.
  intros Ha Hre. unfold relabel. rewrite Hre, Ha, exec_bind_Done.
  rewrite (for_range_ext _ (fun lb l => Done (drop_step re lb l))).
  - rewrite for_range_pure, exec_bind_Done. do 2 f_equal.
    apply map_eq. intros k. rewrite drop_step_lookup.
    unfold NewBuilder, Builder.Labels. cbn [Builder.current].
    apply option_eq. intros v. rewrite map_lookup_filter_Some. cbn [fst].
    destruct (MatchString re k) eqn:E; simpl; [|tauto].
    destruct (bool_decide (k ∈ map Name (range lset))) eqn:D.
    + split; [discriminate | intros [_ H]; discriminate H].
    + split; [|intros [_ H]; discriminate H]. intros H.
      apply bool_decide_eq_false in D. exfalso. apply D.
      apply name_in_range with v. exact H.
  - intros lb l. unfold drop_step. simpl. destruct (MatchString _ _); reflexivity.
Qed.

Lemma lookup_filter_name (P : string -> bool) (lset : Labels) (k : string) :
  filter (fun kv : string * string => P kv.1 = true) lset !! k
  = if P k then lset !! k else None.
Proof.
  apply option_eq. intros v. rewrite map_lookup_filter_Some. cbn [fst].
  destruct (P k); [tauto|]. split; [intros [_ H]; discriminate H | discriminate].
Qed.

Lemma lookup_filter_not_name (P : string -> bool) (lset : Labels) (k : string) :
  filter (fun kv : string * string => P kv.1 = false) lset !! k
  = if P k then None else lset !! k.
Proof.
  apply option_eq. intros v. rewrite map_lookup_filter_Some. cbn [fst].
  destruct (P k); [|tauto]. split; [intros [_ H]; discriminate H | discriminate].
Qed.

(** X2.  LabelDrop returns a label set, never nil: the input without the
    labels whose names the regexp matches. *)
Theorem relabel_LabelDrop_lookup (lset : Labels) (cfg : RelabelConfig)
  (re : regexp.Regexp) :
  Action cfg = RelabelLabelDrop ->
  checkout cfg = Done (Some re) ->
  exists ls',
    relabel lset cfg = Done (Some ls')
    /\ forall k, ls' !! k = if MatchString re k then None else lset !! k.
Proof.
  intros Ha Hre. eexists. split; [apply relabel_LabelDrop; eassumption|].
  intros k. apply lookup_filter_not_name.
Qed.

(** X3.  LabelKeep returns a label set, never nil: the labels of the input
    whose names the regexp matches. *)
Theorem relabel_LabelKeep_lookup (lset : Labels) (cfg : RelabelConfig)
  (re : regexp.Regexp) :
  Action cfg = RelabelLabelKeep ->
  checkout cfg = Done (Some re) ->
  exists ls',
    relabel lset cfg = Done (Some ls')
    /\ forall k, ls' !! k = if MatchString re k then lset !! k else None.
Proof.
  intros Ha Hre. eexists. split; [apply relabel_LabelKeep; eassumption|].
  intros k. apply lookup_filter_name.
Qed.

(** X4.  With the same regexp, LabelKeep and LabelDrop split the label set:
    no label is in both results and together they are the input. *)
Theorem LabelKeep_LabelDrop_partition (lset : Labels) (keep drop : RelabelConfig)
  (re : regexp.Regexp) :
  Action keep = RelabelLabelKeep -> checkout keep = Done (Some re) ->
  Action drop = RelabelLabelDrop -> checkout drop = Done (Some re) ->
  exists kept dropped,
    relabel lset keep = Done (Some kept)
    /\ relabel lset drop = Done (Some dropped)
    /\ kept ∪ dropped = lset
    /\ kept ##ₘ dropped.
Proof.
  intros Hk Hkre Hd Hdre. do 2 eexists.
  split; [apply relabel_LabelKeep; eassumption|].
  split; [apply relabel_LabelDrop; eassumption|].
  split.
  - apply map_eq. intros k. rewrite lookup_union.
    rewrite (lookup_filter_name (MatchString re)), (lookup_filter_not_name (MatchString re)).
    destruct (MatchString re k); destruct (lset !! k); reflexivity.
  - apply map_disjoint_spec. intros k v w Hv Hw.
    rewrite (lookup_filter_name (MatchString re)) in Hv. rewrite (lookup_filter_not_name (MatchString re)) in Hw.
    destruct (MatchString re k); discriminate.
Qed.

(** X5.  With the same regexp, LabelKeep followed by LabelDrop, in either
    order, leaves the empty label set, which is not nil; LabelDrop twice is
    LabelDrop once. *)
Theorem LabelKeep_then_LabelDrop (lset : Labels) (keep drop : RelabelConfig)
  (re : regexp.Regexp) :
  Action keep = RelabelLabelKeep -> checkout keep = Done (Some re) ->
  Action drop = RelabelLabelDrop -> checkout drop = Done (Some re) ->
  Process lset [keep; drop] = Done (Some ∅)
  /\ Process lset [drop; keep] = Done (Some ∅)
  /\ Process lset [drop; drop] = Process lset [drop].
Proof.
  intros Hk Hkre Hd Hdre.
  assert (Hempty1 : filter (fun kv : string * string => MatchString re kv.1 = false)
                      (filter (fun kv : string * string => MatchString re kv.1 = true) lset)
                    = (∅ : Labels)).
  { apply map_eq. intros k. rewrite (lookup_filter_not_name (MatchString re)), (lookup_filter_name (MatchString re)), lookup_empty.
    destruct (MatchString re k); reflexivity. }
  assert (Hempty2 : filter (fun kv : string * string => MatchString re kv.1 = true)
                      (filter (fun kv : string * string => MatchString re kv.1 = false) lset)
                    = (∅ : Labels)).
  { apply map_eq. intros k. rewrite (lookup_filter_name (MatchString re)), (lookup_filter_not_name (MatchString re)), lookup_empty.
    destruct (MatchString re k); reflexivity. }
  repeat split.
  - rewrite Process_cons, (relabel_LabelKeep lset keep re Hk Hkre), Process_one.
    rewrite (relabel_LabelDrop _ drop re Hd Hdre), Hempty1. reflexivity.
  - rewrite Process_cons, (relabel_LabelDrop lset drop re Hd Hdre), Process_one.
    rewrite (relabel_LabelKeep _ keep re Hk Hkre), Hempty2. reflexivity.
  - rewrite Process_cons, !Process_one, (relabel_LabelDrop lset drop re Hd Hdre).
    rewrite Process_one, (relabel_LabelDrop _ drop re Hd Hdre).
    rewrite map_filter_id; [reflexivity|].
    intros k v H. apply map_lookup_filter_Some in H. apply H.
Qed.

(** ** LabelMap *)

Lemma map_step_keeps (re : regexp.Regexp) (repl : string) (ls : list Label)
  (lb : Builder.t) (k : string) :
  is_Some (Builder.Labels lb !! k) ->
  is_Some (Builder.Labels (fold_left (map_step re repl) ls lb) !! k).
Proof.
  revert lb. induction ls as [|l ls IH]; intros lb H; [exact H|].
  cbn [fold_left]. apply IH. unfold map_step.
  destruct (MatchString re (Name l)); [|exact H].
  unfold Builder.Set_, Builder.Labels in *. cbn [Builder.current] in *.
  rewrite lookup_insert. case_decide; [eexists; reflexivity | exact H].
Qed.

Lemma map_step_adds (re : regexp.Regexp) (repl : string) (ls : list Label)
  (lb : Builder.t) (l : Label) :
  l ∈ ls -> MatchString re (Name l) = true ->
  is_Some (Builder.Labels (fold_left (map_step re repl) ls lb)
           !! ReplaceAllString re (Name l) repl).
Proof.
  revert lb. induction ls as [|l0 ls IH]; intros lb Hin Hm.
  - apply elem_of_nil in Hin. destruct Hin.
  - cbn [fold_left]. apply elem_of_cons in Hin as [->|Hin].
    + apply map_step_keeps. unfold map_step. rewrite Hm.
      unfold Builder.Set_, Builder.Labels. cbn [Builder.current].
      rewrite lookup_insert_eq. eexists; reflexivity.
    + apply IH; assumption.
Qed.

Lemma map_step_origin (re : regexp.Regexp) (repl : string) (ls : list Label)
  (lb : Builder.t) (k v : string) :
  Builder.Labels (fold_left (map_step re repl) ls lb) !! k = Some v ->
  Builder.Labels lb !! k = Some v
  \/ exists l, l ∈ ls /\ MatchString re (Name l) = true
       /\ k = ReplaceAllString re (Name l) repl /\ v = Value l.
Proof.
  revert lb. induction ls as [|l ls IH]; intros lb H; [left; exact H|].
  cbn [fold_left] in H. apply IH in H as [H | (l' & Hin & Hl')].
  - unfold map_step in H. destruct (MatchString re (Name l)) eqn:Hm; [|left; exact H].
    unfold Builder.Set_, Builder.Labels in *. cbn [Builder.current] in *.
    rewrite lookup_insert in H. case_decide as Hk.
    + right. exists l. split; [left|]. injection H as <-. auto.
    + left; exact H.
  - right. exists l'. split; [right; exact Hin | exact Hl'].
Qed.

Lemma relabel_LabelMap_fold (lset : Labels) (cfg : RelabelConfig) (re : regexp.Regexp) :
  Action cfg = RelabelLabelMap ->
  checkout cfg = Done (Some re) ->
  relabel lset cfg =
  Done (Some (Builder.Labels
                (fold_left (map_step re (Replacement cfg)) (range lset) (NewBuilder lset)))).
Proof.
  intros Ha Hre. unfold relabel. rewrite Hre, Ha, exec_bind_Done.
  rewrite (for_range_ext _ (fun lb l => Done (map_step re (Replacement cfg) lb l))).
  - rewrite for_range_pure. reflexivity.
  - intros lb l. unfold map_step. simpl. destruct (MatchString _ _); reflexivity.
Qed.

(** X6.  LabelMap only adds or overwrites: every label name of the input is
    still there, every label whose name the regexp matches has its mapped
    name in the result, and every label of the result is a label of the
    input or carries the value of a matching label under its mapped name. *)
Theorem relabel_LabelMap_adds_only (lset : Labels) (cfg : RelabelConfig)
  (re : regexp.Regexp) :
  Action cfg = RelabelLabelMap ->
  checkout cfg = Done (Some re) ->
  exists ls',
    relabel lset cfg = Done (Some ls')
    /\ (forall k, is_Some (lset !! k) -> is_Some (ls' !! k))
    /\ (forall n v, lset !! n = Some v -> MatchString re n = true ->
        is_Some (ls' !! ReplaceAllString re n (Replacement cfg)))
    /\ (forall k v, ls' !! k = Some v ->
        lset !! k = Some v
        \/ exists n, lset !! n = Some v /\ MatchString re n = true
             /\ k = ReplaceAllString re n (Replacement cfg)).
Proof.
  intros Ha Hre. eexists. split; [apply relabel_LabelMap_fold; eassumption|].
  split; [|split].
  - intros k H. apply map_step_keeps. exact H.
  - intros n v Hn Hm.
    apply (map_step_adds re (Replacement cfg) (range lset) (NewBuilder lset)
             {| Name := n; Value := v |}); [|exact Hm].
    apply elem_of_range. exact Hn.
  - intros k v H. apply map_step_origin in H as [H | (l & Hin & Hm & -> & ->)].
    + left. exact H.
    + right. exists (Name l). apply elem_of_range in Hin. auto.
Qed.

(** ** [Process] on a list of rules in two parts *)

(** X7.  [Process] over two lists of rules one after the other is
    [Process] over the second list on the result of the first; nil and a
    panic of the first list end it. *)
Theorem Process_app (labels : Labels) (cfgs1 cfgs2 : list RelabelConfig) :
  Process labels (cfgs1 ++ cfgs2)%list =
  match Process labels cfgs1 with
  | Done (Some labels') => Process labels' cfgs2
  | Done None => Done None
  | Panicked p => Panicked p
  end.
Proof.
  revert labels. induction cfgs1 as [|cfg cfgs1 IH]; intros labels.
  - reflexivity.
  - rewrite <- app_comm_cons, !Process_cons.
    destruct (relabel labels cfg) as [[ls|]|p]; [apply IH | reflexivity | reflexivity].
Qed.

(** ** Only Drop and Keep return nil *)

Lemma for_range_bind_Some {A B C : Type} (body : B -> A -> exec B) (xs : list A)
  (acc : B) (f : B -> C) :
  (for_range body xs acc ≫= fun b => Done (Some (f b))) <> Done None.
Proof. destruct (for_range body xs acc); discriminate. Qed.

Lemma relabel_nil_Drop_Keep (lset : Labels) (cfg : RelabelConfig) :
  relabel lset cfg = Done None ->
  Action cfg = RelabelDrop \/ Action cfg = RelabelKeep.
Proof.
  unfold relabel. intros H. apply exec_bind_inv in H as (regex & _ & H).
  destruct (Action cfg); auto; exfalso.
  - apply exec_bind_inv in H as (re & _ & H).
    destruct (FindStringSubmatchIndex re _); [|discriminate].
    destruct (negb _); [discriminate|]. destruct (_ =? _)%Z; discriminate.
  - destruct (_ =? _)%N; discriminate.
  - revert H. apply for_range_bind_Some.
  - revert H. apply for_range_bind_Some.
  - revert H. apply for_range_bind_Some.
  - discriminate.
Qed.

(** X8.  [Process] returns nil only through a rule with action Drop or
    Keep: no other action returns nil. *)
Theorem Process_nil_needs_Drop_or_Keep (labels : Labels) (cfgs : list RelabelConfig) :
  Process labels cfgs = Done None ->
  exists cfg, cfg ∈ cfgs /\ (Action cfg = RelabelDrop \/ Action cfg = RelabelKeep).
Proof.
  revert labels. induction cfgs as [|cfg cfgs IH]; intros labels H.
  - discriminate H.
  - rewrite Process_cons in H. destruct (relabel labels cfg) as [[ls|]|p] eqn:E.
    + destruct (IH ls H) as (cfg' & Hin & Ha). exists cfg'. split; [right; exact Hin | exact Ha].
    + exists cfg. split; [left | apply (relabel_nil_Drop_Keep labels), E].
    + discriminate H.
Qed.

(** ** Drop and Keep on the same regexp *)

(** X9.  A Drop rule and a Keep rule with the same source labels, separator
    and regexp are complementary: one returns nil exactly when the other
    returns the label set, and the two in sequence, in either order, return
    nil on every label set. *)
Theorem Drop_Keep_complementary (lset : Labels) (drop keep : RelabelConfig)
  (re : regexp.Regexp) :
  Action drop = RelabelDrop -> checkout drop = Done (Some re) ->
  Action keep = RelabelKeep -> checkout keep = Done (Some re) ->
  SourceLabels drop = SourceLabels keep -> Separator drop = Separator keep ->
  (relabel lset drop = Done None <-> relabel lset keep = Done (Some lset))
  /\ (relabel lset keep = Done None <-> relabel lset drop = Done (Some lset))
  /\ Process lset [drop; keep] = Done None
  /\ Process lset [keep; drop] = Done None.
Proof.
  intros Hd Hdre Hk Hkre Hsrc Hsep.
  assert (Hp : probe lset drop = probe lset keep)
    by (unfold probe; rewrite Hsrc, Hsep; reflexivity).
  pose proof (relabel_Drop lset drop re Hd Hdre) as HD.
  pose proof (relabel_Keep lset keep re Hk Hkre) as HK.
  rewrite Hp in HD. rewrite !Process_cons, HD, HK.
  destruct (MatchString re (probe lset keep)).
  - repeat split; try congruence. rewrite Process_one, HD. reflexivity.
  - repeat split; try congruence. rewrite Process_one, HK. reflexivity.
Qed.

(** ** What a rule reads and what it writes *)

Lemma probe_ext (l1 l2 : Labels) (cfg : RelabelConfig) :
  (forall n, n ∈ SourceLabels cfg -> Get l1 n = Get l2 n) ->
  probe l1 cfg = probe l2 cfg.
Proof.
  intros H. unfold probe. f_equal. apply map_ext_in.
  intros n Hn. apply H. apply list_elem_of_In. exact Hn.
Qed.

(** X10.  Drop and Keep decide on the source labels only: two label sets
    that agree on the rule's source labels are both dropped or both
    returned. *)
Theorem relabel_Drop_Keep_reads_sources (l1 l2 : Labels) (cfg : RelabelConfig) :
  Action cfg = RelabelDrop \/ Action cfg = RelabelKeep ->
  (forall n, n ∈ SourceLabels cfg -> Get l1 n = Get l2 n) ->
  (relabel l1 cfg = Done None <-> relabel l2 cfg = Done None)
  /\ (relabel l1 cfg = Done (Some l1) <-> relabel l2 cfg = Done (Some l2)).
Proof.
  intros Ha Hsrc. pose proof (probe_ext l1 l2 cfg Hsrc) as Hp.
  unfold relabel. rewrite Hp.
  destruct Ha as [Ha|Ha]; rewrite Ha;
    destruct (checkout cfg) as [[re|]|p]; simpl;
    try (destruct (MatchString re (probe l2 cfg)); simpl);
    split; split; intros H; try discriminate H; reflexivity.
Qed.

(** X11.  HashMod writes the target label and nothing else, and what it
    writes depends on the source labels only. *)
Theorem relabel_HashMod_reads_sources (l1 l2 l1' l2' : Labels) (cfg : RelabelConfig) :
  Action cfg = RelabelHashMod ->
  (forall n, n ∈ SourceLabels cfg -> Get l1 n = Get l2 n) ->
  relabel l1 cfg = Done (Some l1') ->
  relabel l2 cfg = Done (Some l2') ->
  l1' !! TargetLabel cfg = l2' !! TargetLabel cfg
  /\ is_Some (l1' !! TargetLabel cfg)
  /\ (forall k, k <> TargetLabel cfg -> l1' !! k = l1 !! k).
Proof.
  intros Ha Hsrc H1 H2. pose proof (probe_ext l1 l2 cfg Hsrc) as Hp.
  unfold relabel in H1, H2. rewrite Ha in H1, H2.
  apply exec_bind_inv in H1 as (regex & _ & H1).
  apply exec_bind_inv in H2 as (regex' & _ & H2).
  destruct (Modulus cfg =? 0)%N; [discriminate H1|].
  injection H1 as <-. injection H2 as <-.
  unfold Builder.Labels, Builder.Set_, NewBuilder. cbn [Builder.current].
  rewrite !lookup_insert_eq, Hp. split; [reflexivity|].
  split; [eexists; reflexivity|].
  intros k Hk. apply lookup_insert_ne. congruence.
Qed.

(** X12.  Replace returns a label set, never nil, and touches at most the
    target label as written in the rule and the target label as expanded
    from the match: every other label is as in the input. *)
Theorem relabel_Replace_frame (lset : Labels) (cfg : RelabelConfig) (re : regexp.Regexp) :
  Action cfg = RelabelReplace ->
  checkout cfg = Done (Some re) ->
  exists ls',
    relabel lset cfg = Done (Some ls')
    /\ forall k,
        k <> TargetLabel cfg ->
        (forall loc, FindStringSubmatchIndex re (probe lset cfg) = Some loc ->
           k <> ExpandString re "" (TargetLabel cfg) (probe lset cfg) loc) ->
        ls' !! k = lset !! k.
Proof.
  intros Ha Hre. unfold relabel. rewrite Hre, Ha, exec_bind_Done. simpl.
  destruct (FindStringSubmatchIndex re (probe lset cfg)) as [loc|].
  - destruct (negb _).
    + eexists. split; [reflexivity|]. intros k Hk _. apply lookup_delete_ne. congruence.
    + destruct (_ =? _)%Z.
      * eexists. split; [reflexivity|]. intros k Hk _. apply lookup_delete_ne. congruence.
      * eexists. split; [reflexivity|]. intros k _ Hk.
        apply lookup_insert_ne. specialize (Hk loc eq_refl). congruence.
  - eexists. split; [reflexivity|]. reflexivity.
Qed.

End Relabel.

(** ** [sum64] on two checksums *)

Lemma to_N_inj (b1 b2 : byte) : Byte.to_N b1 = Byte.to_N b2 -> b1 = b2.
Proof.
  intros H. apply (f_equal Byte.of_N) in H. rewrite !Byte.of_to_N in H.
  injection H as ->. reflexivity.
Qed.

Lemma big_endian_fold_inj (l1 l2 : list byte) (h1 h2 : N) :
  length l1 = length l2 ->
  fold_left (fun n b => (n * 256 + Byte.to_N b)%N) l1 h1
  = fold_left (fun n b => (n * 256 + Byte.to_N b)%N) l2 h2 ->
  h1 = h2 /\ l1 = l2.
Proof.
  revert l2 h1 h2. induction l1 as [|b1 l1 IH]; intros [|b2 l2] h1 h2 Hlen H;
    try discriminate Hlen.
  - split; [exact H | reflexivity].
  - cbn [fold_left] in H. injection Hlen as Hlen.
    destruct (IH l2 _ _ Hlen H) as [Hh ->].
    pose proof (to_N_bounded b1). pose proof (to_N_bounded b2).
    assert (h1 = h2) by lia. subst h2.
    assert (Byte.to_N b1 = Byte.to_N b2) by lia.
    split; [reflexivity|]. f_equal. apply to_N_inj. assumption.
Qed.

(** X13.  Two checksums have the same [sum64] exactly when their bytes 8
    to 15 are equal: the first eight bytes never count, the last eight all
    do. *)
Theorem sum64_eq_iff (hash1 hash2 : vec byte md5.Size) :
  sum64 hash1 = sum64 hash2 <->
  drop 8 (vec_to_list hash1) = drop 8 (vec_to_list hash2).
Proof.
  rewrite !sum64_last_8_bytes. split.
  - intros H. apply (big_endian_fold_inj _ _ 0%N 0%N); [|exact H].
    rewrite !length_drop, !length_vec_to_list. reflexivity.
  - intros ->. reflexivity.
Qed.

(** * The rules of the examples *)

(** ** The compiled expressions *)

Lemma AnchoredLiteral_Anchored (lit : string) : Anchored (compiled.AnchoredLiteral lit).
Proof.
  intros s H. unfold FullMatch. simpl in *.
  destruct (String.eqb s lit).
  - rewrite !Z.eqb_refl. reflexivity.
  - apply bool_decide_eq_true in H. destruct H as [loc H]. discriminate H.
Qed.

(** The expression [canary] without anchors is not anchored: it matches in
    the middle of a string. *)
Lemma Literal_not_Anchored : ~ Anchored (compiled.Literal "c" "anary").
Proof.
  intros H. specialize (H "my-canary-2" eq_refl). discriminate H.
Qed.

Section Examples.

Import compiled examples.

Local Abbreviation relabel := (relabel md5.Sum model.IsValid).
Local Abbreviation Process := (Process md5.Sum model.IsValid).

(** ** The pipeline *)

(** The rule after the one that drops is not applied: alone, it panics. *)
Example Process_drops_before_unknown_action :
  Process (job "canary") [drop_canary; unknown_action] = Done None
  /\ Process (job "canary") [unknown_action] = Panicked (UnknownAction "rename")
  /\ Process (job "prod") [drop_canary; replace_tier "test"; labelkeep_job]
     = Done (Some (job "prod")).
Proof. repeat split; vm_compute; reflexivity. Qed.

(** ** Drop and Keep *)

(** "Rule: action=Drop, source_labels=["job"], regex="^canary$".  Input label
    set with job="canary" ⇒ ⊥; with job="prod" ⇒ unchanged." *)
Example drop_canary_scenario :
  relabel (job "canary") drop_canary = Done None
  /\ relabel (job "prod") drop_canary = Done (Some (job "prod")).
Proof. split; vm_compute; reflexivity. Qed.

Lemma relabel_Drop_Keep_MatchString_witness :
  checkout drop_canary = Done (Some (AnchoredLiteral "canary"))
  /\ Action drop_canary = RelabelDrop
  /\ relabel (job "canary") drop_canary = Done None.
Proof.
  split; [reflexivity|]. split; [reflexivity|].
  apply (proj2 (proj1 (relabel_Drop_Keep_MatchString md5.Sum model.IsValid
                         (job "canary") drop_canary (AnchoredLiteral "canary") eq_refl)
                 eq_refl)
           (AnchoredLiteral_Anchored "canary")).
  vm_compute. reflexivity.
Defined.

(** C3 as it is stated fails: the expression [canary] matches in the name
    of the job my-canary-2 without matching the whole of it, and the rule
    that drops on it returns nil for that job, while the rule that keeps on
    it returns the label set. *)
Lemma relabel_Drop_without_full_match :
  FullMatch (Literal "c" "anary") (probe (job "my-canary-2") drop_canary_anywhere)
  = false
  /\ (checkout drop_canary_anywhere = Done (Some (Literal "c" "anary"))
      /\ Action drop_canary_anywhere = RelabelDrop
      /\ relabel (job "my-canary-2") drop_canary_anywhere = Done None)
  /\ (checkout keep_canary_anywhere = Done (Some (Literal "c" "anary"))
      /\ Action keep_canary_anywhere = RelabelKeep
      /\ relabel (job "my-canary-2") keep_canary_anywhere
         = Done (Some (job "my-canary-2"))).
Proof. repeat split; vm_compute; reflexivity. Qed.

Lemma relabel_Drop_Keep_returns_input_witness :
  (Action drop_canary = RelabelDrop \/ Action drop_canary = RelabelKeep)
  /\ relabel (job "prod") drop_canary = Done (Some (job "prod"))
  /\ (relabel (job "canary") drop_canary = Done None
      \/ relabel (job "canary") drop_canary = Done (Some (job "canary"))).
Proof.
  split; [left; reflexivity|]. split; [vm_compute; reflexivity|].
  exact (proj2 (relabel_Drop_Keep_returns_input md5.Sum model.IsValid
                  (job "canary") drop_canary (or_introl eq_refl))
           (AnchoredLiteral "canary") eq_refl).
Defined.

(** ** Replace *)

(** "Rule: action=Replace, source_labels=["addr"], regex="([^:]+):(\\d+)",
    target_label="host", replacement="$1".  Input addr="a.example:80" ⇒
    host="a.example" added; addr="no-port" ⇒ no change." *)
Example replace_host_scenario :
  relabel (addr "a.example:80") replace_host
  = Done (Some (<["host" := "a.example"]> (addr "a.example:80")))
  /\ relabel (addr "no-port") replace_host = Done (Some (addr "no-port")).
Proof. split; vm_compute; reflexivity. Qed.

Lemma relabel_Replace_witness :
  Action (replace_tier "test") = RelabelReplace
  /\ checkout (replace_tier "test") = Done (Some (AnchoredLiteral "canary"))
  /\ relabel (job_tier "canary" "x") (replace_tier "test")
     = Done (Some (<["tier" := "test"]> (job_tier "canary" "x"))).
Proof.
  split; [reflexivity|]. split; [reflexivity|].
  apply (proj2 (proj2 (proj2 (relabel_Replace md5.Sum model.IsValid
                                (job_tier "canary" "x") (replace_tier "test")
                                (AnchoredLiteral "canary") eq_refl eq_refl)
                        [0%Z; 6%Z] eq_refl))).
  - reflexivity.
  - discriminate.
Defined.

Lemma relabel_Replace_empty_replacement_witness :
  Action (replace_tier "") = RelabelReplace
  /\ checkout (replace_tier "") = Done (Some (AnchoredLiteral "canary"))
  /\ Replacement (replace_tier "") = ""
  /\ relabel (job_tier "canary" "x") (replace_tier "")
     = Done (Some (Builder.Labels (Builder.Del (NewBuilder (job_tier "canary" "x")) "tier"))).
Proof.
  repeat (split; [reflexivity|]).
  exact (relabel_Replace_empty_replacement md5.Sum model.IsValid
           (job_tier "canary" "x") (replace_tier "") (AnchoredLiteral "canary")
           eq_refl eq_refl eq_refl).
Defined.

(** C7 as it is stated fails: on a job that the regexp of the rule does not
    match, the rule with the empty replacement returns the label set with
    its target label, which [Del] would have deleted. *)
Lemma relabel_Replace_empty_replacement_no_match :
  Action (replace_tier "") = RelabelReplace
  /\ Replacement (replace_tier "") = ""
  /\ relabel (job_tier "prod" "x") (replace_tier "") = Done (Some (job_tier "prod" "x"))
  /\ job_tier "prod" "x"
     <> Builder.Labels (Builder.Del (NewBuilder (job_tier "prod" "x"))
                          (TargetLabel (replace_tier ""))).
Proof.
  repeat (split; [vm_compute; reflexivity|]).
  intros H. apply (f_equal (fun ls : Labels => ls !! "tier")) in H.
  vm_compute in H. discriminate H.
Qed.

(** ** HashMod *)

(** "Rule: action=HashMod, source_labels=["instance"], modulus=8,
    target_label="shard"": the shard of the instance foo, whose checksum is
    acbd18db4cc2f85cedef654fccc4a4d8, is 0xd8 mod 8. *)
Example hashmod_shard_scenario :
  relabel instance_foo hashmod_shard = Done (Some (<["shard" := "0"]> instance_foo)).
Proof. vm_compute. reflexivity. Qed.

Lemma relabel_HashMod_last_8_bytes_witness :
  Action hashmod_shard = RelabelHashMod
  /\ checkout hashmod_shard = Done None
  /\ Modulus hashmod_shard <> 0%N
  /\ relabel instance_foo hashmod_shard
     = Done (Some (<["shard" := "0"]> instance_foo)).
Proof.
  assert (Hm : Modulus hashmod_shard <> 0%N) by discriminate.
  split; [reflexivity|]. split; [reflexivity|]. split; [exact Hm|].
  pose proof (proj2 (relabel_HashMod_last_8_bytes md5.Sum model.IsValid
                       instance_foo hashmod_shard None eq_refl eq_refl Hm)) as H.
  vm_compute in H. vm_compute. exact H.
Defined.

(** C5 as it is stated fails: the first 8 bytes of the checksum of foo,
    acbd18db4cc2f85c, give the shard 4, and [relabel] gives the shard 0 of
    its last 8 bytes, edef654fccc4a4d8. *)
Lemma relabel_HashMod_not_first_8_bytes :
  FormatUint (big_endian (take 8 (vec_to_list (md5.Sum (probe instance_foo hashmod_shard))))
              mod Modulus hashmod_shard) = "4"
  /\ relabel instance_foo hashmod_shard = Done (Some (<["shard" := "0"]> instance_foo))
  /\ relabel instance_foo hashmod_shard
     <> Done (Some (<[TargetLabel hashmod_shard :=
                      FormatUint
                        (big_endian
                           (take 8 (vec_to_list (md5.Sum (probe instance_foo hashmod_shard))))
                         mod Modulus hashmod_shard)]> instance_foo)).
Proof.
  split; [vm_compute; reflexivity|]. split; [vm_compute; reflexivity|].
  intros H.
  assert (Hs : forall r : exec (option Labels), r = relabel instance_foo hashmod_shard ->
               (if r is Done (Some ls) then ls !! "shard" else None) = Some "0").
  { intros r ->. vm_compute. reflexivity. }
  specialize (Hs _ (eq_sym H)). vm_compute in Hs. discriminate Hs.
Qed.

Lemma relabel_HashMod_range_witness :
  Action hashmod_shard = RelabelHashMod
  /\ (0 < Modulus hashmod_shard)%N
  /\ exists (ls' : Labels) (m : N),
       Some (<["shard" := "0"]> instance_foo) = Some ls'
       /\ ls' !! TargetLabel hashmod_shard = Some (FormatUint m)
       /\ decimal_value (Get ls' (TargetLabel hashmod_shard)) = Some m
       /\ (0 <= m < Modulus hashmod_shard)%N.
Proof.
  split; [reflexivity|]. split; [reflexivity|].
  apply (proj2 (relabel_HashMod_range md5.Sum model.IsValid instance_foo hashmod_shard
                  eq_refl eq_refl)).
  vm_compute. reflexivity.
Defined.

(** ** LabelKeep *)

Lemma LabelKeep_idempotent_witness :
  Action labelkeep_job = RelabelLabelKeep
  /\ Process (job_tier "prod" "x") [labelkeep_job; labelkeep_job]
     = Process (job_tier "prod" "x") [labelkeep_job]
  /\ Process (job_tier "prod" "x") [labelkeep_job] = Done (Some (job "prod")).
Proof.
  split; [reflexivity|]. split.
  - exact (LabelKeep_idempotent md5.Sum model.IsValid (job_tier "prod" "x")
             labelkeep_job eq_refl).
  - vm_compute. reflexivity.
Defined.

(** ** Panics *)

Lemma relabel_panics_on_unknown_action_only_witness :
  known (Action unknown_action) = false
  /\ relabel (job "prod") unknown_action = Panicked (UnknownAction "rename")
  /\ validated drop_canary = true
  /\ exists r, relabel (job "prod") drop_canary = Done r.
Proof.
  split; [reflexivity|]. split; [|split; [reflexivity|]].
  - exact (proj2 (proj1 (relabel_panics_on_unknown_action_only md5.Sum model.IsValid
                           (job "prod") unknown_action) eq_refl)
             _ "rename" eq_refl eq_refl).
  - exact (proj2 (proj2 (relabel_panics_on_unknown_action_only md5.Sum model.IsValid
                           (job "prod") drop_canary)) eq_refl).
Defined.

End Examples.

(** * The rules on label names, and rules side by side *)

Section Scenarios.

Import compiled examples scenarios.

Local Abbreviation relabel := (relabel md5.Sum model.IsValid).
Local Abbreviation Process := (Process md5.Sum model.IsValid).

(** ** LabelDrop, LabelKeep and LabelMap *)

Example label_name_rules_scenario :
  relabel (job_instance "prod") labeldrop_job = Done (Some instance_foo)
  /\ relabel (job_instance "prod") labelkeep_job = Done (Some (job "prod"))
  /\ relabel (job "prod") labelmap_job = Done (Some (<[ "task" := "prod" ]> (job "prod"))).
Proof. repeat split; vm_compute; reflexivity. Qed.

Lemma relabel_LabelDrop_lookup_witness :
  Action labeldrop_job = RelabelLabelDrop
  /\ checkout labeldrop_job = Done (Some (AnchoredLiteral "job"))
  /\ exists ls',
       relabel (job_instance "prod") labeldrop_job = Done (Some ls')
       /\ forall k,
            ls' !! k = if MatchString (AnchoredLiteral "job") k then None
                       else job_instance "prod" !! k.
Proof.
  split; [reflexivity|]. split; [reflexivity|].
  exact (relabel_LabelDrop_lookup md5.Sum model.IsValid (job_instance "prod")
           labeldrop_job (AnchoredLiteral "job") eq_refl eq_refl).
Defined.

Lemma relabel_LabelKeep_lookup_witness :
  Action labelkeep_job = RelabelLabelKeep
  /\ checkout labelkeep_job = Done (Some (AnchoredLiteral "job"))
  /\ exists ls',
       relabel (job_instance "prod") labelkeep_job = Done (Some ls')
       /\ forall k,
            ls' !! k = if MatchString (AnchoredLiteral "job") k
                       then job_instance "prod" !! k else None.
Proof.
  split; [reflexivity|]. split; [reflexivity|].
  exact (relabel_LabelKeep_lookup md5.Sum model.IsValid (job_instance "prod")
           labelkeep_job (AnchoredLiteral "job") eq_refl eq_refl).
Defined.

Lemma LabelKeep_LabelDrop_partition_witness :
  exists kept dropped,
    relabel (job_instance "prod") labelkeep_job = Done (Some kept)
    /\ relabel (job_instance "prod") labeldrop_job = Done (Some dropped)
    /\ kept ∪ dropped = job_instance "prod"
    /\ kept ##ₘ dropped.
Proof.
  exact (LabelKeep_LabelDrop_partition md5.Sum model.IsValid (job_instance "prod")
           labelkeep_job labeldrop_job (AnchoredLiteral "job")
           eq_refl eq_refl eq_refl eq_refl).
Defined.

Lemma LabelKeep_then_LabelDrop_witness :
  Process (job_instance "prod") [labelkeep_job; labeldrop_job] = Done (Some ∅)
  /\ Process (job_instance "prod") [labeldrop_job; labelkeep_job] = Done (Some ∅)
  /\ Process (job_instance "prod") [labeldrop_job; labeldrop_job]
     = Process (job_instance "prod") [labeldrop_job].
Proof.
  exact (LabelKeep_then_LabelDrop md5.Sum model.IsValid (job_instance "prod")
           labelkeep_job labeldrop_job (AnchoredLiteral "job")
           eq_refl eq_refl eq_refl eq_refl).
Defined.

Lemma relabel_LabelMap_adds_only_witness :
  Action labelmap_job = RelabelLabelMap
  /\ checkout labelmap_job = Done (Some (AnchoredLiteral "job"))
  /\ ReplaceAllString (AnchoredLiteral "job") "job" (Replacement labelmap_job) = "task"
  /\ exists ls',
       relabel (job "prod") labelmap_job = Done (Some ls')
       /\ (forall k, is_Some (job "prod" !! k) -> is_Some (ls' !! k))
       /\ (forall n v, job "prod" !! n = Some v ->
           MatchString (AnchoredLiteral "job") n = true ->
           is_Some (ls' !! ReplaceAllString (AnchoredLiteral "job") n
                             (Replacement labelmap_job)))
       /\ (forall k v, ls' !! k = Some v ->
           job "prod" !! k = Some v
           \/ exists n, job "prod" !! n = Some v
                /\ MatchString (AnchoredLiteral "job") n = true
                /\ k = ReplaceAllString (AnchoredLiteral "job") n
                         (Replacement labelmap_job)).
Proof.
  split; [reflexivity|]. split; [reflexivity|]. split; [vm_compute; reflexivity|].
  exact (relabel_LabelMap_adds_only md5.Sum model.IsValid (job "prod")
           labelmap_job (AnchoredLiteral "job") eq_refl eq_refl).
Defined.

(** ** Nil results *)

Lemma Process_nil_needs_Drop_or_Keep_witness :
  Process (job "canary") [labelmap_job; drop_canary; labelkeep_job] = Done None
  /\ exists cfg,
       cfg ∈ [labelmap_job; drop_canary; labelkeep_job]
       /\ (Action cfg = RelabelDrop \/ Action cfg = RelabelKeep).
Proof.
  split; [vm_compute; reflexivity|].
  apply (Process_nil_needs_Drop_or_Keep md5.Sum model.IsValid (job "canary")).
  vm_compute. reflexivity.
Defined.

Lemma Drop_Keep_complementary_witness :
  (relabel (job "canary") drop_canary = Done None
   <-> relabel (job "canary") keep_canary = Done (Some (job "canary")))
  /\ (relabel (job "canary") keep_canary = Done None
      <-> relabel (job "canary") drop_canary = Done (Some (job "canary")))
  /\ Process (job "canary") [drop_canary; keep_canary] = Done None
  /\ Process (job "canary") [keep_canary; drop_canary] = Done None.
Proof.
  exact (Drop_Keep_complementary md5.Sum model.IsValid (job "canary")
           drop_canary keep_canary (AnchoredLiteral "canary")
           eq_refl eq_refl eq_refl eq_refl eq_refl eq_refl).
Defined.

(** ** What a rule reads and what it writes *)

Lemma relabel_Drop_Keep_reads_sources_witness :
  (forall n, n ∈ SourceLabels drop_canary ->
     Get (job "canary") n = Get (job_tier "canary" "test") n)
  /\ (relabel (job "canary") drop_canary = Done None
      <-> relabel (job_tier "canary" "test") drop_canary = Done None)
  /\ (relabel (job "canary") drop_canary = Done (Some (job "canary"))
      <-> relabel (job_tier "canary" "test") drop_canary
          = Done (Some (job_tier "canary" "test"))).
Proof.
  assert (H : forall n, n ∈ SourceLabels drop_canary ->
                Get (job "canary") n = Get (job_tier "canary" "test") n).
  { intros n Hin. apply list_elem_of_singleton in Hin. rewrite Hin.
    vm_compute. reflexivity. }
  split; [exact H|].
  exact (relabel_Drop_Keep_reads_sources md5.Sum model.IsValid (job "canary")
           (job_tier "canary" "test") drop_canary (or_introl eq_refl) H).
Defined.

Lemma relabel_HashMod_reads_sources_witness :
  relabel instance_foo hashmod_shard = Done (Some (<[ "shard" := "0" ]> instance_foo))
  /\ relabel (job_instance "prod") hashmod_shard
     = Done (Some (<[ "shard" := "0" ]> (job_instance "prod")))
  /\ <[ "shard" := "0" ]> instance_foo !! TargetLabel hashmod_shard
     = <[ "shard" := "0" ]> (job_instance "prod") !! TargetLabel hashmod_shard
  /\ is_Some (<[ "shard" := "0" ]> instance_foo !! TargetLabel hashmod_shard)
  /\ (forall k, k <> TargetLabel hashmod_shard ->
      <[ "shard" := "0" ]> instance_foo !! k = instance_foo !! k).
Proof.
  assert (H1 : relabel instance_foo hashmod_shard
               = Done (Some (<[ "shard" := "0" ]> instance_foo)))
    by (vm_compute; reflexivity).
  assert (H2 : relabel (job_instance "prod") hashmod_shard
               = Done (Some (<[ "shard" := "0" ]> (job_instance "prod"))))
    by (vm_compute; reflexivity).
  split; [exact H1|]. split; [exact H2|].
  apply (relabel_HashMod_reads_sources md5.Sum model.IsValid instance_foo
           (job_instance "prod") _ _ hashmod_shard eq_refl); [|exact H1|exact H2].
  intros n Hin. apply list_elem_of_singleton in Hin. rewrite Hin.
  vm_compute. reflexivity.
Defined.

Lemma relabel_Replace_frame_witness :
  Action replace_host = RelabelReplace
  /\ checkout replace_host = Done (Some HostPort)
  /\ exists ls',
       relabel (addr "a.example:80") replace_host = Done (Some ls')
       /\ forall k,
            k <> TargetLabel replace_host ->
            (forall loc,
               FindStringSubmatchIndex HostPort (probe (addr "a.example:80") replace_host)
               = Some loc ->
               k <> ExpandString HostPort "" (TargetLabel replace_host)
                      (probe (addr "a.example:80") replace_host) loc) ->
            ls' !! k = addr "a.example:80" !! k.
Proof.
  split; [reflexivity|]. split; [reflexivity|].
  exact (relabel_Replace_frame md5.Sum model.IsValid (addr "a.example:80")
           replace_host HostPort eq_refl eq_refl).
Defined.

End Scenarios.

(** * The storage client of the tests *)

Section TestStorageClient.

Import stackdriver.

Variable metricsPrefix : string.

Local Abbreviation Store := (Store metricsPrefix).
Local Abbreviation series_samples := (series_samples metricsPrefix).
Local Abbreviation carried := (carried metricsPrefix).
Local Abbreviation series_body := (series_body metricsPrefix).

Lemma record_all_lookup (m : gmap string (list sample)) (samples : list sample)
  (name : string) :
  record_all m samples !! name =
  match named name samples with
  | [] => m !! name
  | ss => Some (default [] (m !! name) ++ ss)%list
  end.
Proof.
  unfold record_all, named. revert m. induction samples as [|s samples IH]; intros m.
  - reflexivity.
  - cbn [fold_left]. rewrite IH. unfold append_to.
    destruct (decide (Name s = name)) as [<-|Hne].
    + rewrite filter_cons_True by reflexivity. rewrite lookup_insert_eq. simpl.
      destruct (filter _ samples) as [|s' ss'].
      * reflexivity.
      * rewrite <- app_assoc. reflexivity.
    + rewrite filter_cons_False by exact Hne. rewrite lookup_insert_ne by exact Hne.
      reflexivity.
Qed.

Lemma record_all_app (m : gmap string (list sample)) (s1 s2 : list sample) :
  record_all m (s1 ++ s2) = record_all (record_all m s1) s2.
Proof. unfold record_all. apply fold_left_app. Qed.

Lemma points_loop (name : string) (points : list (option Point))
  (rc : gmap string (list sample) * Z) :
  for_each (points_body name) points rc =
  match mapM (point_sample name) points with
  | Some ss => Returns (record_all rc.1 ss, (rc.2 + Z.of_nat (length ss))%Z)
  | None => Faults NilPointer
  end.
Proof.
  revert rc. induction points as [|p points IH]; intros rc.
  - simpl. rewrite Z.add_0_r. destruct rc; reflexivity.
  - cbn [for_each mapM]. unfold points_body at 1.
    destruct p as [[[[[v|]]|]]|]; try reflexivity.
    simpl. rewrite IH. simpl.
    destruct (mapM (point_sample name) points) as [ss|]; simpl; [|reflexivity].
    do 2 f_equal. lia.
Qed.

Lemma series_body_samples (rc : gmap string (list sample) * Z) (ts : option TimeSeries) :
  match series_samples ts with
  | Some ss =>
      series_body rc ts = Returns (record_all rc.1 ss, (rc.2 + Z.of_nat (length ss))%Z)
  | None =>
      series_body rc ts = Faults NilPointer \/ series_body rc ts = Faults SliceBounds
  end.
Proof.
  unfold series_body, series_samples.
  destruct ts as [[[metric|] points]|]; simpl; auto.
  unfold slice_from.
  destruct (String.length metricsPrefix + 1 <=? String.length (Metric_Type metric))%nat;
    simpl; auto.
  rewrite points_loop.
  destruct (mapM (point_sample _) points) as [ss|]; simpl; auto.
Qed.

Lemma series_loop (tss : list (option TimeSeries)) (rc : gmap string (list sample) * Z) :
  match mapM series_samples tss with
  | Some sss =>
      for_each series_body tss rc =
      Returns (record_all rc.1 (List.concat sss),
               (rc.2 + Z.of_nat (length (List.concat sss)))%Z)
  | None =>
      for_each series_body tss rc = Faults NilPointer
      \/ for_each series_body tss rc = Faults SliceBounds
  end.
Proof.
  revert rc. induction tss as [|ts tss IH]; intros rc.
  - simpl. rewrite Z.add_0_r. destruct rc; reflexivity.
  - cbn [for_each mapM]. pose proof (series_body_samples rc ts) as Hts.
    destruct (series_samples ts) as [ss|]; simpl.
    + rewrite Hts. simpl.
      specialize (IH (record_all rc.1 ss, (rc.2 + Z.of_nat (length ss))%Z)).
      destruct (mapM series_samples tss) as [sss|]; simpl in *.
      * rewrite IH. rewrite record_all_app, length_app. do 2 f_equal. lia.
      * exact IH.
    + destruct Hts as [-> | ->]; auto.
Qed.

Lemma int32_small (z : Z) : (0 <= z < 2 ^ 31)%Z -> int32 z = z.
Proof. intros H. unfold int32. rewrite Z.mod_small by lia. lia. Qed.

Lemma Store_carried (c : TestStorageClient) (req : option CreateTimeSeriesRequest) :
  match carried req with
  | Some ss =>
      Store c req =
      (wg' ← WaitGroup_Add (wg c) (- Z.of_nat (length ss));
       Returns {| receivedSamples := record_all (receivedSamples c) ss;
                  expectedSamples := expectedSamples c;
                  wg := wg' |})
  | None => Store c req = Faults NilPointer \/ Store c req = Faults SliceBounds
  end.
Proof.
  change (Store c req) with
    (req' ← deref req;
     rc ← for_each series_body (Request_TimeSeries req') (receivedSamples c, 0%Z);
     wg' ← WaitGroup_Add (wg c) (- rc.2);
     Returns {| receivedSamples := rc.1; expectedSamples := expectedSamples c;
                wg := wg' |}).
  unfold carried. destruct req as [req'|]; simpl; auto.
  pose proof (series_loop (Request_TimeSeries req') (receivedSamples c, 0%Z)) as H.
  destruct (mapM series_samples (Request_TimeSeries req')) as [sss|]; simpl in *.
  - rewrite H. reflexivity.
  - destruct H as [-> | ->]; auto.
Qed.

(** X14.  When [Store] returns, every pointer of the request was non-nil
    and every metric type long enough; the samples received under a name
    are those already there followed by the request's samples of that name,
    in the request's order; names the request does not mention and the
    expected samples are untouched; and the counter went down by the number
    of points without becoming negative. *)
Theorem Store_appends_in_order (c c' : TestStorageClient)
  (req : option CreateTimeSeriesRequest) :
  Store c req = Returns c' ->
  exists samples,
    carried req = Some samples
    /\ expectedSamples c' = expectedSamples c
    /\ wg c' = int32 (wg c - Z.of_nat (length samples))
    /\ (0 <= wg c')%Z
    /\ forall name,
        receivedSamples c' !! name =
        match named name samples with
        | [] => receivedSamples c !! name
        | ss => Some (default [] (receivedSamples c !! name) ++ ss)%list
        end.
Proof.
  intros H. pose proof (Store_carried c req) as Hc.
  destruct (carried req) as [ss|].
  - exists ss. split; [reflexivity|]. rewrite H in Hc.
    unfold WaitGroup_Add in Hc.
    destruct (int32 (wg c + - Z.of_nat (length ss)) <? 0)%Z eqn:E; [discriminate Hc|].
    simpl in Hc. injection Hc as ->. cbn [expectedSamples wg receivedSamples].
    apply Z.ltb_ge in E.
    split; [reflexivity|]. split; [reflexivity|]. split; [exact E|].
    intros name. apply record_all_lookup.
  - destruct Hc as [Hc|Hc]; rewrite Hc in H; discriminate H.
Qed.

(** X15.  The panics of [Store]: a nil pointer or a metric type shorter
    than the prefix and its separator, exactly when the request does not
    carry a list of samples; otherwise a negative counter, exactly when the
    request has more points than the counter awaits. *)
Theorem Store_faults (c : TestStorageClient) (req : option CreateTimeSeriesRequest) :
  (carried req = None <->
     Store c req = Faults NilPointer \/ Store c req = Faults SliceBounds)
  /\ (forall samples, carried req = Some samples ->
      (0 <= wg c < 2 ^ 31)%Z -> (Z.of_nat (length samples) <= 2 ^ 31)%Z ->
      (Store c req = Faults NegativeCounter <-> (wg c < Z.of_nat (length samples))%Z)
      /\ ((exists c', Store c req = Returns c') <-> (Z.of_nat (length samples) <= wg c)%Z)).
Proof.
  pose proof (Store_carried c req) as Hc. split.
  - destruct (carried req) as [ss|].
    + split; [discriminate|]. rewrite Hc. unfold WaitGroup_Add.
      destruct (_ <? 0)%Z; intros [H|H]; discriminate H.
    + split; [intros _; exact Hc | reflexivity].
  - intros ss Hss Hwg Hlen. rewrite Hss in Hc. rewrite Hc. unfold WaitGroup_Add.
    destruct (Z.lt_ge_cases (wg c) (Z.of_nat (length ss))) as [Hlt|Hge].
    + assert (E : (int32 (wg c + - Z.of_nat (length ss)) <? 0)%Z = true).
      { apply Z.ltb_lt. unfold int32.
        replace (wg c + - Z.of_nat (length ss) + 2 ^ 31)%Z
          with (wg c - Z.of_nat (length ss) + 2 ^ 31)%Z by lia.
        rewrite Z.mod_small by lia. lia. }
      rewrite E. simpl. split; split; try lia; try reflexivity.
      intros [c' H]. discriminate H.
    + assert (E : (int32 (wg c + - Z.of_nat (length ss)) <? 0)%Z = false).
      { apply Z.ltb_ge. rewrite int32_small by lia. lia. }
      rewrite E. simpl. split; split; try lia; try discriminate.
      intros _. eexists. reflexivity.
Qed.

(** X16.  [expectSamples] appends each sample to the expected samples of
    its name, in the order given, adds their number to the counter and
    leaves the received samples alone. *)
Theorem expectSamples_groups_by_name (c : TestStorageClient) (samples : list sample) :
  (0 <= wg c)%Z ->
  (wg c + Z.of_nat (length samples) < 2 ^ 31)%Z ->
  exists c',
    expectSamples c samples = Returns c'
    /\ receivedSamples c' = receivedSamples c
    /\ wg c' = (wg c + Z.of_nat (length samples))%Z
    /\ forall name,
        expectedSamples c' !! name =
        match named name samples with
        | [] => expectedSamples c !! name
        | ss => Some (default [] (expectedSamples c !! name) ++ ss)%list
        end.
Proof.
  intros Hwg Hlen. unfold expectSamples, WaitGroup_Add.
  rewrite int32_small by lia.
  destruct (_ <? 0)%Z eqn:E; [apply Z.ltb_lt in E; lia|].
  eexists. split; [reflexivity|]. cbn [receivedSamples wg expectedSamples].
  split; [reflexivity|]. split; [reflexivity|].
  intros name. apply record_all_lookup.
Qed.

(** X17.  Expecting the samples that a request carries and then storing the
    request brings the counter back to where it was, and if received and
    expected samples were equal before, they are equal after. *)
Theorem expectSamples_then_Store (c : TestStorageClient) (samples : list sample)
  (req : option CreateTimeSeriesRequest) :
  (0 <= wg c)%Z ->
  (wg c + Z.of_nat (length samples) < 2 ^ 31)%Z ->
  carried req = Some samples ->
  exists c1 c2,
    expectSamples c samples = Returns c1
    /\ Store c1 req = Returns c2
    /\ wg c2 = wg c
    /\ (receivedSamples c = expectedSamples c ->
        receivedSamples c2 = expectedSamples c2).
Proof.
  intros Hwg Hlen Hreq. unfold expectSamples, WaitGroup_Add.
  rewrite int32_small by lia.
  destruct (_ <? 0)%Z eqn:E; [apply Z.ltb_lt in E; lia|].
  eexists. eexists. split; [reflexivity|].
  match goal with |- Store ?c1 req = _ /\ _ => pose proof (Store_carried c1 req) as Hc end.
  rewrite Hreq in Hc. cbn [receivedSamples wg expectedSamples] in Hc.
  unfold WaitGroup_Add in Hc.
  replace (wg c + Z.of_nat (length samples) + - Z.of_nat (length samples))%Z
    with (wg c) in Hc by lia.
  rewrite int32_small in Hc by lia.
  destruct (wg c <? 0)%Z eqn:E'; [apply Z.ltb_lt in E'; lia|].
  simpl in Hc. split; [exact Hc|]. cbn [wg receivedSamples expectedSamples].
  split; [reflexivity|]. intros ->. reflexivity.
Qed.

End TestStorageClient.

(** ** A request of three points *)

Section StoredSamples.

Import stackdriver.

Lemma Store_appends_in_order_witness :
  Store prefix awaiting request = Returns stored
  /\ exists samples,
       carried prefix request = Some samples
       /\ expectedSamples stored = expectedSamples awaiting
       /\ wg stored = int32 (wg awaiting - Z.of_nat (length samples))
       /\ (0 <= wg stored)%Z
       /\ forall name,
            receivedSamples stored !! name =
            match named name samples with
            | [] => receivedSamples awaiting !! name
            | ss => Some (default [] (receivedSamples awaiting !! name) ++ ss)%list
            end.
Proof.
  split; [vm_compute; reflexivity|].
  apply (Store_appends_in_order prefix awaiting stored request).
  vm_compute. reflexivity.
Defined.

Lemma expectSamples_groups_by_name_witness :
  (0 <= wg NewTestStorageClient)%Z
  /\ (wg NewTestStorageClient + Z.of_nat (length samples) < 2 ^ 31)%Z
  /\ exists c',
       expectSamples NewTestStorageClient samples = Returns c'
       /\ receivedSamples c' = receivedSamples NewTestStorageClient
       /\ wg c' = (wg NewTestStorageClient + Z.of_nat (length samples))%Z
       /\ forall name,
            expectedSamples c' !! name =
            match named name samples with
            | [] => expectedSamples NewTestStorageClient !! name
            | ss => Some (default [] (expectedSamples NewTestStorageClient !! name)
                          ++ ss)%list
            end.
Proof.
  assert (H1 : (0 <= wg NewTestStorageClient)%Z) by (simpl; lia).
  assert (H2 : (wg NewTestStorageClient + Z.of_nat (length samples) < 2 ^ 31)%Z)
    by (simpl; lia).
  split; [exact H1|]. split; [exact H2|].
  exact (expectSamples_groups_by_name NewTestStorageClient samples H1 H2).
Defined.

Lemma expectSamples_then_Store_witness :
  carried prefix request = Some samples
  /\ exists c1 c2,
       expectSamples NewTestStorageClient samples = Returns c1
       /\ Store prefix c1 request = Returns c2
       /\ wg c2 = wg NewTestStorageClient
       /\ (receivedSamples NewTestStorageClient = expectedSamples NewTestStorageClient ->
           receivedSamples c2 = expectedSamples c2).
Proof.
  assert (H : carried prefix request = Some samples) by (vm_compute; reflexivity).
  split; [exact H|].
  apply (expectSamples_then_Store prefix NewTestStorageClient samples request);
    [simpl; lia | simpl; lia | exact H].
Defined.

(** The panics of [Store] on the request: none of the three points awaited,
    then a point whose value is nil, then a metric type without a name. *)
Example Store_faults_scenario :
  Store prefix NewTestStorageClient request = Faults NegativeCounter
  /\ Store prefix awaiting
       (Some {| Request_TimeSeries :=
                  [Some {| TimeSeries_Metric := Some {| Metric_Type := prefix ++ "/m" |};
                           TimeSeries_Points := [Some {| Point_Value := None |}] |}] |})
     = Faults NilPointer
  /\ Store prefix awaiting
       (Some {| Request_TimeSeries :=
                  [Some {| TimeSeries_Metric := Some {| Metric_Type := prefix |};
                           TimeSeries_Points := [] |}] |})
     = Faults SliceBounds.
Proof. repeat split; vm_compute; reflexivity. Qed.

End StoredSamples.
